(** * The graph visualisation engine of healui-labs: clustering, visibility
      filter, level of detail and selection store.

    Shallow embedding of
    - [src/components/GraphCanvasOptimized.tsx]: [nodeImportance],
      [clusteredData], [visibleData], [handleClusterClick], [renderNodes],
      [initializeSimulation], [render];
    - [src/components/D3ForceGraph.tsx]: the data conversion and guarded
      simulation set-up of [initializeGraph], the [connections] of the click
      handler;
    - [src/store/graphStore.ts]: the data, selection, history and filter
      actions and the look-ups;
    - [GraphSearch]: the type toggles and the click on a search result.

    Conventions.
    - A JS [string] is a [string], an array is a [list]. Strings are compared,
      concatenated and searched ([includes]) as they are; the built-ins that
      follow the Unicode tables or count UTF-16 code units ([toLowerCase],
      [length], [substring]) are the fields of the class [Builtins], and the
      functions that call them are defined over any such built-ins.
    - A JS [Set<string>] is the list of its members in insertion order; the
      code only ever calls [has], [add], [delete] and [clear] on its sets.
    - A JS [Map] is an association list in insertion order: [set] on a key
      already present overwrites the value in place, as in JS.
    - Integer options ([clusterThreshold], [maxVisibleNodes]) are in [Z]; array
      lengths and degrees are in [nat]; zoom factors are rationals ([Q]): the
      comparisons the code makes on them are exact.
    - Fields that no modelled function reads ([properties], [position],
      [color], the [size] of an ordinary node) are left out of the records. *)

From Stdlib Require Import String Ascii List Bool Arith ZArith QArith Qminmax Lia.
From Stdlib Require Import Permutation Sorted DecimalString.
Import ListNotations.

Local Close Scope Q_scope.
Local Open Scope string_scope.
Local Open Scope list_scope.
Local Open Scope nat_scope.

(** ** JavaScript sets of strings *)

Module JSSet.

Definition t := list string.

Definition empty : t := [].

Definition has (s : t) (x : string) : bool := existsb (String.eqb x) s.

Definition add (s : t) (x : string) : t := if has s x then s else s ++ [x].

Definition delete (s : t) (x : string) : t :=
  filter (fun y => negb (String.eqb x y)) s.

Definition clear (_ : t) : t := [].

(** [new Set(array)]: members in order of first occurrence. *)
Definition of_list (l : list string) : t := fold_left add l empty.

Definition same_members (s s' : t) : Prop := forall x, has s x = has s' x.

End JSSet.

(** ** JavaScript maps with string keys *)

Module JSMap.

Section WithValue.
Context {V : Type}.

Definition t := list (string * V).

Fixpoint get (m : t) (k : string) : option V :=
  match m with
  | [] => None
  | (k', v) :: m' => if String.eqb k k' then Some v else get m' k
  end.

(** [m.set(k, v)]: a new key goes last, an old key keeps its place. *)
Fixpoint set (m : t) (k : string) (v : V) : t :=
  match m with
  | [] => [(k, v)]
  | (k', v') :: m' =>
      if String.eqb k k' then (k', v) :: m' else (k', v') :: set m' k v
  end.

Definition keys (m : t) : list string := map fst m.
Definition values (m : t) : list V := map snd m.

(** [new Map(entries)] *)
Definition of_entries (l : list (string * V)) : t :=
  fold_left (fun m kv => set m (fst kv) (snd kv)) l [].

End WithValue.

Arguments t V : clear implicits.

End JSMap.

(** ** The graph model ([src/types/graph]) *)

(** [NodeData]; [type] is a string at run time, the four entity types in
    well-typed data. *)
Record NodeData := mkNode {
  id : string;
  label : string;
  type : string
}.

Record EdgeData := mkEdge {
  eid : string;
  source : string;
  target : string;
  etype : string
}.

Record GraphData := mkGraph {
  nodes : list NodeData;
  edges : list EdgeData
}.

(** The synthetic cluster node built by [clusteredData] (a [D3NodeData] with
    [isClusterNode: true]); its [type] is the constant ['cluster']. *)
Record ClusterNode := mkCluster {
  cid : string;
  clabel : string;
  childNodes : list string;
  csize : Q
}.

(** An element of the node array that [clusteredData] returns: an ordinary
    node of the data, or a cluster node. *)
Inductive VNode :=
| Plain (n : NodeData)
| Cluster (c : ClusterNode).

Definition vid (v : VNode) : string :=
  match v with Plain n => id n | Cluster c => cid c end.

Definition vlabel (v : VNode) : string :=
  match v with Plain n => label n | Cluster c => clabel c end.

Definition vtype (v : VNode) : string :=
  match v with Plain n => type n | Cluster _ => "cluster" end.

Definition isClusterNode (v : VNode) : bool :=
  match v with Plain _ => false | Cluster _ => true end.

(** ** Importance Scorer: [nodeImportance] *)

Definition touches (nid : string) (e : EdgeData) : bool :=
  String.eqb (source e) nid || String.eqb (target e) nid.

Definition degree (es : list EdgeData) (nid : string) : nat :=
  length (filter (touches nid) es).

Definition nodeImportance (d : GraphData) : JSMap.t nat :=
  fold_left (fun m n => JSMap.set m (id n) (degree (edges d) (id n)))
            (nodes d) [].

(** [nodeImportance.get(id) || 0] *)
Definition importanceOf (imp : JSMap.t nat) (nid : string) : nat :=
  match JSMap.get imp nid with Some k => k | None => 0 end.

(** ** Clustering Reducer: [clusteredData] *)

(** The template literal [`cluster_${node.type}`]. *)
Definition clusterKey (ty : string) : string := "cluster_" ++ ty.
Arguments clusterKey : simpl never.

(** [String(n)] for an array length. *)
Definition string_of_nat (n : nat) : string :=
  NilZero.string_of_uint (Nat.to_uint n).

(** One iteration of the grouping loop:
    [if (!clusters.has(key)) clusters.set(key, []); clusters.get(key)!.push(node)]
    for a node whose type is active. The in-place [push] on the stored array
    is a [set] on a key that is present, which keeps the key's place. *)
Definition groupStep (nodeTypes : JSSet.t)
    (clusters : JSMap.t (list NodeData)) (node : NodeData)
    : JSMap.t (list NodeData) :=
  if JSSet.has nodeTypes (type node) then
    let key := clusterKey (type node) in
    let clusters1 :=
      match JSMap.get clusters key with
      | None => JSMap.set clusters key []
      | Some _ => clusters
      end in
    match JSMap.get clusters1 key with
    | Some ns => JSMap.set clusters1 key (ns ++ [node])
    | None => clusters1
    end
  else clusters.

Definition groupByType (nodeTypes : JSSet.t) (ns : list NodeData)
    : JSMap.t (list NodeData) :=
  fold_left (groupStep nodeTypes) ns [].

(** [nodes[0].type]; every stored group has a first element. *)
Definition firstType (ns : list NodeData) : string :=
  match ns with
  | n0 :: _ => type n0
  | [] => "undefined"
  end.

Definition mkClusterNode (clusterId : string) (ns : list NodeData)
    : ClusterNode :=
  {| cid := clusterId;
     clabel := firstType ns ++ " cluster (" ++ string_of_nat (length ns) ++ ")";
     childNodes := map id ns;
     csize := Qmin (35 + inject_Z (Z.of_nat (length ns)) / 2)%Q 60%Q |}.

(** One iteration of [clusters.forEach((nodes, clusterId) => ...)], on the
    pair of arrays [clusterNodes], [remainingNodes]. *)
Definition collapseStep (clusterThreshold : Z) (expandedClusters : JSSet.t)
    (acc : list ClusterNode * list NodeData)
    (entry : string * list NodeData)
    : list ClusterNode * list NodeData :=
  let '(clusterNodes, remainingNodes) := acc in
  let '(clusterId, ns) := entry in
  if (clusterThreshold <? Z.of_nat (length ns))%Z
     && negb (JSSet.has expandedClusters clusterId)
  then (clusterNodes ++ [mkClusterNode clusterId ns], remainingNodes)
  else (clusterNodes, remainingNodes ++ ns).

Definition collapse (clusterThreshold : Z) (expandedClusters : JSSet.t)
    (clusters : JSMap.t (list NodeData))
    : list ClusterNode * list NodeData :=
  fold_left (collapseStep clusterThreshold expandedClusters) clusters ([], []).

(** The second pass over [data.nodes], "Add non-clustered nodes". *)
Definition nonClustered (nodeTypes expandedClusters : JSSet.t)
    (ns : list NodeData) : list NodeData :=
  filter (fun node =>
            negb (JSSet.has nodeTypes (type node))
            || JSSet.has expandedClusters (clusterKey (type node))) ns.

(** [array.includes(x)] on an array of strings. *)
Definition includes (l : list string) (x : string) : bool :=
  existsb (String.eqb x) l.

(** The body of [clusterNodes.forEach(cluster => ...)] inside the edge map:
    [source] and [target] are updated cluster after cluster. *)
Definition rewriteStep (st : string * string) (cluster : ClusterNode)
    : string * string :=
  let '(s, t) := st in
  (if includes (childNodes cluster) s then cid cluster else s,
   if includes (childNodes cluster) t then cid cluster else t).

Definition rewriteEdge (clusterNodes : list ClusterNode) (edge : EdgeData)
    : EdgeData :=
  let '(s, t) := fold_left rewriteStep clusterNodes (source edge, target edge) in
  {| eid := eid edge; source := s; target := t; etype := etype edge |}.

(** The template literal [`${e.source}-${e.target}`]. *)
Definition edgeKey (e : EdgeData) : string := source e ++ "-" ++ target e.

(** [Array.from(new Map(edges.map(e => [key, e])).values())] *)
Definition uniqueByKey (es : list EdgeData) : list EdgeData :=
  JSMap.values (JSMap.of_entries (map (fun e => (edgeKey e, e)) es)).

Record Clustered := mkClustered {
  cnodes : list VNode;
  cedges : list EdgeData
}.

Definition clusteredData (enableClustering : bool) (clusterThreshold : Z)
    (nodeTypes expandedClusters : JSSet.t) (data : GraphData) : Clustered :=
  if negb enableClustering
     || (Z.of_nat (length (nodes data)) <? clusterThreshold)%Z
  then {| cnodes := map Plain (nodes data); cedges := edges data |}
  else
    let clusters := groupByType nodeTypes (nodes data) in
    let '(clusterNodes, remaining0) :=
      collapse clusterThreshold expandedClusters clusters in
    let remainingNodes :=
      remaining0 ++ nonClustered nodeTypes expandedClusters (nodes data) in
    let updatedEdges := map (rewriteEdge clusterNodes) (edges data) in
    {| cnodes := map Plain remainingNodes ++ map Cluster clusterNodes;
       cedges := uniqueByKey updatedEdges |}.

(** [handleClusterClick]: toggle the cluster id in [expandedClusters]. *)
Definition handleClusterClick (clusterId : string) (prev : JSSet.t) : JSSet.t :=
  if JSSet.has prev clusterId
  then JSSet.delete prev clusterId
  else JSSet.add prev clusterId.

(** ** Visibility Filter: [visibleData] *)

(** The steps of the filter that do not lower-case a string; the search step
    and [visibleData] itself follow with the string built-ins. *)

(** [s.includes(q)]: [q] occurs in [s] as a substring. *)
Fixpoint strIncludes (s q : string) : bool :=
  String.prefix q s
  || match s with
     | EmptyString => false
     | String _ s' => strIncludes s' q
     end.

(** A JS string is truthy when it is not empty. *)
Definition truthy (s : string) : bool :=
  match s with EmptyString => false | String _ _ => true end.

Inductive VisibilityMode := ModeAll | ModeImportant | ModeFiltered.

Definition isImportant (m : VisibilityMode) : bool :=
  match m with ModeImportant => true | _ => false end.

Definition bothIn (ids : JSSet.t) (edge : EdgeData) : bool :=
  JSSet.has ids (source edge) && JSSet.has ids (target edge).

(** "Apply type filters" *)
Definition typeFilter (nodeTypes edgeTypes : JSSet.t)
    (vs : list VNode * list EdgeData) : list VNode * list EdgeData :=
  let '(visibleNodes, visibleEdges) := vs in
  (filter (fun node => JSSet.has nodeTypes (vtype node) || isClusterNode node)
          visibleNodes,
   filter (fun edge => JSSet.has edgeTypes (etype edge)) visibleEdges).

(** [[...nodes].sort((a, b) => imp(b) - imp(a))]: [Array.prototype.sort] is
    stable, and the stable arrangement of a list by decreasing importance is
    unique; insertion from the right computes it. *)
Fixpoint insertByImportance (imp : JSMap.t nat) (x : VNode) (l : list VNode)
    : list VNode :=
  match l with
  | [] => [x]
  | y :: l' =>
      if importanceOf imp (vid y) <=? importanceOf imp (vid x)
      then x :: y :: l'
      else y :: insertByImportance imp x l'
  end.

Definition sortByImportance (imp : JSMap.t nat) (l : list VNode) : list VNode :=
  fold_right (insertByImportance imp) [] l.

(** [array.slice(0, end)] for an integer [end]: a negative [end] counts from
    the end of the array. *)
Definition slice0 {A : Type} (l : list A) (end_ : Z) : list A :=
  let len := Z.of_nat (length l) in
  let final := if (end_ <? 0)%Z then Z.max (len + end_) 0 else Z.min end_ len in
  firstn (Z.to_nat final) l.

(** "Apply importance-based filtering for large graphs" *)
Definition importanceCap (visibilityMode : VisibilityMode) (maxVisibleNodes : Z)
    (imp : JSMap.t nat)
    (vs : list VNode * list EdgeData) : list VNode * list EdgeData :=
  let '(visibleNodes, visibleEdges) := vs in
  if isImportant visibilityMode
     && (maxVisibleNodes <? Z.of_nat (length visibleNodes))%Z
  then
    let sortedNodes := sortByImportance imp visibleNodes in
    let topNodes := JSSet.of_list (map vid (slice0 sortedNodes maxVisibleNodes)) in
    (filter (fun node => JSSet.has topNodes (vid node)) visibleNodes,
     filter (bothIn topNodes) visibleEdges)
  else vs.

(** [Math.max(...nodeImportance.values())]; [None] stands for the
    [-Infinity] of an empty argument list. *)
Definition maxImportance (imp : JSMap.t nat) : option nat :=
  match JSMap.values imp with
  | [] => None
  | v :: vs => Some (fold_left Nat.max vs v)
  end.

(** [importance >= maxImportance * 0.3]. Degrees are integers, so the
    comparison with the product agrees with the exact [3 * max <= 10 * k]. *)
Definition aboveMinImportance (imp : JSMap.t nat) (k : nat) : bool :=
  match maxImportance imp with
  | None => true
  | Some m => 3 * m <=? 10 * k
  end.

(** "Apply level-of-detail based on zoom": only the nodes are filtered. *)
Definition lodCull (zoomLevel : Q) (imp : JSMap.t nat)
    (vs : list VNode * list EdgeData) : list VNode * list EdgeData :=
  let '(visibleNodes, visibleEdges) := vs in
  if negb (Qle_bool (1 # 2)%Q zoomLevel) then
    (filter (fun node =>
               aboveMinImportance imp (importanceOf imp (vid node))
               || isClusterNode node) visibleNodes,
     visibleEdges)
  else vs.

(** The filter state read by [visibleData]. *)
Record FilterState := mkFilter {
  searchQuery : string;
  nodeTypes : JSSet.t;
  edgeTypes : JSSet.t;
  visibilityMode : VisibilityMode;
  maxVisibleNodes : Z;
  zoomLevel : Q
}.

(** The component's props. *)
Record Props := mkProps {
  enableClustering : bool;
  clusterThreshold : Z
}.

(** ** Level-of-Detail Renderer: the zoom branch of [renderNodes] *)

Inductive DetailTier := FullDetail | ReducedDetail.

(** [if (zoomLevel > 0.7) ... else ...] *)
Definition detailTier (zoomLevel : Q) : DetailTier :=
  if negb (Qle_bool zoomLevel (7 # 10)%Q) then FullDetail else ReducedDetail.

(** The table [nodeTypeConfig]: colour and size per node type. *)
Definition nodeTypeConfig (ty : string) : option (string * Q) :=
  if String.eqb ty "condition" then Some ("#ff6b6b", 25%Q)
  else if String.eqb ty "exercise" then Some ("#4ecdc4", 22%Q)
  else if String.eqb ty "equipment" then Some ("#45b7d1", 20%Q)
  else if String.eqb ty "metric" then Some ("#f39c12", 18%Q)
  else if String.eqb ty "cluster" then Some ("#9f7aea", 35%Q)
  else None.

(** What is appended to an entering node's group: a circle with a text
    label, or a circle alone. Stroke, opacity and font attributes are
    constants of each branch and are left out. *)
Inductive NodeGlyph :=
| CircleWithLabel (r : Q) (fill : string) (text : string)
| Dot (r : Q) (fill : string).

Definition fillOf (d : VNode) : string :=
  match d with
  | Cluster _ => "#9f7aea"
  | Plain n =>
      match nodeTypeConfig (type n) with
      | Some (color, _) => color
      | None => "#gray"
      end
  end.

(** [d.size || 35] for a cluster, [nodeTypeConfig[d.type]?.size || 20]
    otherwise. *)
Definition radiusOf (d : VNode) : Q :=
  match d with
  | Cluster c => if Qeq_bool (csize c) 0%Q then 35%Q else csize c
  | Plain n =>
      match nodeTypeConfig (type n) with
      | Some (_, size) => size
      | None => 20%Q
      end
  end.

Definition hasLabel (g : NodeGlyph) : bool :=
  match g with CircleWithLabel _ _ _ => true | Dot _ _ => false end.

(** ** Selection store ([graphStore.ts]) *)

Module Store.

Inductive SelectionMode := Single | Multiple.

Record SelectionState := mkSelection {
  selectedNodeIds : JSSet.t;
  selectedEdgeIds : JSSet.t;
  lastSelected : option string;
  selectionMode : SelectionMode
}.

Definition initialSelection : SelectionState :=
  {| selectedNodeIds := JSSet.empty;
     selectedEdgeIds := JSSet.empty;
     lastSelected := None;
     selectionMode := Single |}.

(** The two [clear()] calls guarded by [if (!multi)]. *)
Definition clearUnlessMulti (multi : bool) (s : SelectionState)
    : SelectionState :=
  if negb multi then
    {| selectedNodeIds := JSSet.clear (selectedNodeIds s);
       selectedEdgeIds := JSSet.clear (selectedEdgeIds s);
       lastSelected := lastSelected s;
       selectionMode := selectionMode s |}
  else s.

Definition selectNode (nodeId : string) (multi : bool) (s : SelectionState)
    : SelectionState :=
  let s1 := clearUnlessMulti multi s in
  {| selectedNodeIds := JSSet.add (selectedNodeIds s1) nodeId;
     selectedEdgeIds := selectedEdgeIds s1;
     lastSelected := Some nodeId;
     selectionMode := selectionMode s1 |}.

Definition selectEdge (edgeId : string) (multi : bool) (s : SelectionState)
    : SelectionState :=
  let s1 := clearUnlessMulti multi s in
  {| selectedNodeIds := selectedNodeIds s1;
     selectedEdgeIds := JSSet.add (selectedEdgeIds s1) edgeId;
     lastSelected := Some edgeId;
     selectionMode := selectionMode s1 |}.

Definition clearSelection (s : SelectionState) : SelectionState :=
  {| selectedNodeIds := JSSet.clear (selectedNodeIds s);
     selectedEdgeIds := JSSet.clear (selectedEdgeIds s);
     lastSelected := None;
     selectionMode := selectionMode s |}.

End Store.

(** ** [D3ForceGraph.initializeGraph]: data conversion and guarded set-up *)

Module ForceGraph.

Record D3Node := mkD3Node {
  nid : string;
  nlabel : string;
  ntype : string;
  group : Z
}.

Record D3Link := mkD3Link {
  lid : string;
  lsource : string;
  ltarget : string;
  ltype : string;
  value : Z
}.

(** [array.indexOf(x)], [-1] when absent. *)
Fixpoint indexOf (l : list string) (x : string) : Z :=
  match l with
  | [] => (-1)%Z
  | y :: l' =>
      if String.eqb x y then 0%Z
      else let i := indexOf l' x in
           if (i <? 0)%Z then (-1)%Z else (i + 1)%Z
  end.

Definition toD3Nodes (data : GraphData) : list D3Node :=
  map (fun node =>
         {| nid := id node; nlabel := label node; ntype := type node;
            group := indexOf ["condition"; "exercise"; "equipment"; "metric"]
                             (type node) |})
      (nodes data).

Definition toD3Link (edge : EdgeData) : D3Link :=
  {| lid := eid edge; lsource := source edge; ltarget := target edge;
     ltype := etype edge; value := 1%Z |}.

(** "Filter out edges that reference non-existent nodes" *)
Definition validLinks (ns : list D3Node) (es : list EdgeData) : list D3Link :=
  let nodeIds := JSSet.of_list (map nid ns) in
  map toD3Link
      (filter (fun edge =>
                 JSSet.has nodeIds (source edge)
                 && JSSet.has nodeIds (target edge)) es).

(** A computation that returns or throws. *)
Inductive Result (E A : Type) :=
| Returns (a : A)
| Throws (e : E).
Arguments Returns {E A} a.
Arguments Throws {E A} e.

(** [try { body } catch (error) { handler(error) }] *)
Definition tryCatch {E A : Type} (body : Result E A) (handler : E -> Result E A)
    : Result E A :=
  match body with
  | Returns a => Returns a
  | Throws e => handler e
  end.

Section InitializeGraph.
(** The d3 library is outside the repository: the chain of calls that
    builds the simulation is any function that returns a simulation or
    throws. *)
Variables Simulation Error : Type.
Variable forceSimulation :
  list D3Node -> list D3Link -> Result Error Simulation.

(** What [initializeGraph] leaves behind: the drawn graph with its running
    simulation, or only the background after the early [return] of the
    [catch] block. *)
Inductive Canvas :=
| Drawn (ns : list D3Node) (ls : list D3Link) (sim : Simulation)
| Blank.

Definition initializeGraph (data : GraphData) : Result Error Canvas :=
  let ns := toD3Nodes data in
  let ls := validLinks ns (edges data) in
  tryCatch
    (match forceSimulation ns ls with
     | Returns sim => Returns (Drawn ns ls sim)
     | Throws e => Throws e
     end)
    (fun _ => Returns Blank).
End InitializeGraph.

Arguments Drawn {Simulation} ns ls sim.
Arguments Blank {Simulation}.

End ForceGraph.

(** ** Notions used in the statements *)

(** The edge kept for a key is the last edge of the input that carries it. *)
Definition lastWithKey (es : list EdgeData) (k : string) : option EdgeData :=
  find (fun e => String.eqb (edgeKey e) k) (rev es).

(** Identifiers without the separator of the key. *)
Fixpoint noDash (s : string) : bool :=
  match s with
  | EmptyString => true
  | String c s' => negb (Ascii.eqb c "-") && noDash s'
  end.

(** The arrays [clusterNodes] and [updatedEdges] of the clustering path. *)
Definition clusterNodesOf (clusterThreshold : Z)
    (nodeTypes expandedClusters : JSSet.t) (data : GraphData)
    : list ClusterNode :=
  fst (collapse clusterThreshold expandedClusters
         (groupByType nodeTypes (nodes data))).

Definition remainingNodesOf (clusterThreshold : Z)
    (nodeTypes expandedClusters : JSSet.t) (data : GraphData)
    : list NodeData :=
  snd (collapse clusterThreshold expandedClusters
         (groupByType nodeTypes (nodes data)))
  ++ nonClustered nodeTypes expandedClusters (nodes data).

Definition updatedEdgesOf (clusterThreshold : Z)
    (nodeTypes expandedClusters : JSSet.t) (data : GraphData)
    : list EdgeData :=
  map (rewriteEdge (clusterNodesOf clusterThreshold nodeTypes expandedClusters data))
      (edges data).

(** The nodes that the grouping loop files under the key [k]. *)
Definition inGroup (nodeTypes : JSSet.t) (k : string) (node : NodeData) : bool :=
  JSSet.has nodeTypes (type node) && String.eqb (clusterKey (type node)) k.

Definition groupMembers (nodeTypes : JSSet.t) (k : string) (ns : list NodeData)
    : list NodeData :=
  filter (inGroup nodeTypes k) ns.

Definition collapsed (clusterThreshold : Z) (expandedClusters : JSSet.t)
    (entry : string * list NodeData) : bool :=
  (clusterThreshold <? Z.of_nat (length (snd entry)))%Z
  && negb (JSSet.has expandedClusters (fst entry)).

(** The nodes of type [t], in the order of the data. *)
Definition typeGroup (t : string) (ns : list NodeData) : list NodeData :=
  filter (fun n => String.eqb (type n) t) ns.


(** What the loop over the cluster nodes does to one endpoint. *)
Definition rewriteId (clusterNodes : list ClusterNode) (x : string) : string :=
  fold_left (fun x c => if includes (childNodes c) x then cid c else x)
            clusterNodes x.

Definition plainOfType (t : string) (vs : list VNode) : list VNode :=
  filter (fun v => negb (isClusterNode v) && String.eqb (vtype v) t) vs.

Definition dangling (vs : list VNode * list EdgeData) (e : EdgeData) : Prop :=
  In e (snd vs)
  /\ (~ In (source e) (map vid (fst vs)) \/ ~ In (target e) (map vid (fst vs))).

Definition weight (imp : JSMap.t nat) (v : VNode) : nat :=
  importanceOf imp (vid v).

(** Decreasing importance, from the front of the array to its end. *)
Definition descending (imp : JSMap.t nat) (l : list VNode) : Prop :=
  StronglySorted (fun a b => weight imp b <= weight imp a) l.

(** The nodes ranked first and the nodes ranked after them. *)
Definition topRanked (max : Z) (imp : JSMap.t nat) (ns : list VNode) : list VNode :=
  slice0 (sortByImportance imp ns) max.

(** ** Sample graphs and filter states *)

Definition allNodeTypes : JSSet.t :=
  ["condition"; "exercise"; "equipment"; "metric"].

Definition allEdgeTypes : JSSet.t :=
  ["treats"; "requires"; "measures"; "related_to"].

(** The scenario of the specification: fifteen exercises. *)
Definition fifteenExercises : GraphData :=
  {| nodes := map (fun i => mkNode ("ex" ++ string_of_nat i)
                                   ("Exercise " ++ string_of_nat i) "exercise")
                  (seq 1 15);
     edges := [] |}.

(** A graph of three exercises with one edge between two of them. *)
Definition threeExercises : GraphData :=
  {| nodes := [mkNode "e1" "Squat" "exercise"; mkNode "e2" "Lunge" "exercise";
               mkNode "e3" "Plank" "exercise"];
     edges := [mkEdge "x" "e1" "e2" "related_to"] |}.

(** Four nodes of four types whose ids contain the separator of the key. *)
Definition dashedIds : GraphData :=
  {| nodes := [mkNode "a-b" "P" "condition"; mkNode "c" "Q" "exercise";
               mkNode "a" "R" "equipment"; mkNode "b-c" "S" "metric"];
     edges := [mkEdge "x" "a-b" "c" "treats"; mkEdge "y" "a" "b-c" "requires"] |}.

(** Two parallel edges between two conditions. *)
Definition parallelEdges : GraphData :=
  {| nodes := [mkNode "c1" "Knee pain" "condition";
               mkNode "c2" "Back pain" "condition"];
     edges := [mkEdge "x" "c1" "c2" "related_to";
               mkEdge "y" "c1" "c2" "treats"] |}.

(** Two exercises and a condition: at threshold 2 no group is large. *)
Definition twoExercises : GraphData :=
  {| nodes := [mkNode "e1" "Squat" "exercise"; mkNode "e2" "Lunge" "exercise";
               mkNode "c1" "Knee pain" "condition"];
     edges := [] |}.

(** The scenario of the specification: A treats B, B requires C. *)
Definition scenarioGraph : GraphData :=
  {| nodes := [mkNode "A" "Knee pain" "condition";
               mkNode "B" "Squat" "exercise";
               mkNode "C" "Resistance band" "equipment"];
     edges := [mkEdge "e1" "A" "B" "treats"; mkEdge "e2" "B" "C" "requires"] |}.

Definition defaultProps : Props :=
  {| enableClustering := true; clusterThreshold := 10 |}.

Definition withoutEquipment : FilterState :=
  {| searchQuery := "";
     nodeTypes := JSSet.delete allNodeTypes "equipment";
     edgeTypes := allEdgeTypes;
     visibilityMode := ModeImportant;
     maxVisibleNodes := 100;
     zoomLevel := 1%Q |}.

(** A condition whose id is the id that the cluster of exercises receives. *)
Definition collidingIds : GraphData :=
  {| nodes := [mkNode "cluster_exercise" "Knee pain" "condition";
               mkNode "e1" "Squat" "exercise"; mkNode "e2" "Lunge" "exercise";
               mkNode "e3" "Plank" "exercise"];
     edges := [] |}.

Definition capAtOne : FilterState :=
  {| searchQuery := "";
     nodeTypes := allNodeTypes;
     edgeTypes := allEdgeTypes;
     visibilityMode := ModeImportant;
     maxVisibleNodes := 1;
     zoomLevel := 1%Q |}.

(** The filter state of a freshly mounted [GraphCanvasOptimized]. *)
Definition defaultFilter : FilterState :=
  {| searchQuery := "";
     nodeTypes := allNodeTypes;
     edgeTypes := allEdgeTypes;
     visibilityMode := ModeImportant;
     maxVisibleNodes := 100;
     zoomLevel := 1%Q |}.

(** One condition and an edge from it to an id that no node carries. *)
Definition ghostGraph : GraphData :=
  {| nodes := [mkNode "A" "Knee pain" "condition"];
     edges := [mkEdge "e1" "A" "ghost" "treats"] |}.

(** ** The rest of the store ([graphStore.ts]) *)

Module GraphStore.

(** The part of the store that the actions below read or write. The
    viewport, the loading flag and the property filters are left out, and so
    is the graph's metadata, which no action below reads. *)
Record State := mkState {
  data : GraphData;
  selection : Store.SelectionState;
  isDirty : bool;
  history : list GraphData;
  historyIndex : nat;
  nodeTypes : JSSet.t;
  edgeTypes : JSSet.t;
  searchQuery : string
}.

Definition withData (s : State) (d : GraphData) (dirty : bool) : State :=
  {| data := d; selection := selection s; isDirty := dirty;
     history := history s; historyIndex := historyIndex s;
     nodeTypes := nodeTypes s; edgeTypes := edgeTypes s;
     searchQuery := searchQuery s |}.

Definition withSelection (s : State) (sel : Store.SelectionState) : State :=
  {| data := data s; selection := sel; isDirty := isDirty s;
     history := history s; historyIndex := historyIndex s;
     nodeTypes := nodeTypes s; edgeTypes := edgeTypes s;
     searchQuery := searchQuery s |}.

Definition withHistory (s : State) (d : GraphData) (h : list GraphData)
    (i : nat) : State :=
  {| data := d; selection := selection s; isDirty := isDirty s;
     history := h; historyIndex := i;
     nodeTypes := nodeTypes s; edgeTypes := edgeTypes s;
     searchQuery := searchQuery s |}.

Definition setGraphData (d : GraphData) (s : State) : State :=
  {| data := d; selection := selection s; isDirty := false;
     history := [d]; historyIndex := 0;
     nodeTypes := nodeTypes s; edgeTypes := edgeTypes s;
     searchQuery := searchQuery s |}.

Definition addNode (node : NodeData) (s : State) : State :=
  withData s {| nodes := nodes (data s) ++ [node]; edges := edges (data s) |} true.

Definition removeNode (nodeId : string) (s : State) : State :=
  {| data :=
       {| nodes := filter (fun n => negb (String.eqb (id n) nodeId))
                          (nodes (data s));
          edges := filter (fun e => negb (String.eqb (source e) nodeId)
                                    && negb (String.eqb (target e) nodeId))
                          (edges (data s)) |};
     selection :=
       {| Store.selectedNodeIds :=
            JSSet.delete (Store.selectedNodeIds (selection s)) nodeId;
          Store.selectedEdgeIds := Store.selectedEdgeIds (selection s);
          Store.lastSelected := Store.lastSelected (selection s);
          Store.selectionMode := Store.selectionMode (selection s) |};
     isDirty := true;
     history := history s; historyIndex := historyIndex s;
     nodeTypes := nodeTypes s; edgeTypes := edgeTypes s;
     searchQuery := searchQuery s |}.

Definition addEdge (edge : EdgeData) (s : State) : State :=
  withData s {| nodes := nodes (data s); edges := edges (data s) ++ [edge] |} true.

Definition removeEdge (edgeId : string) (s : State) : State :=
  {| data :=
       {| nodes := nodes (data s);
          edges := filter (fun e => negb (String.eqb (eid e) edgeId))
                          (edges (data s)) |};
     selection :=
       {| Store.selectedNodeIds := Store.selectedNodeIds (selection s);
          Store.selectedEdgeIds :=
            JSSet.delete (Store.selectedEdgeIds (selection s)) edgeId;
          Store.lastSelected := Store.lastSelected (selection s);
          Store.selectionMode := Store.selectionMode (selection s) |};
     isDirty := true;
     history := history s; historyIndex := historyIndex s;
     nodeTypes := nodeTypes s; edgeTypes := edgeTypes s;
     searchQuery := searchQuery s |}.

(** The selection actions of [Store], on the whole state. *)
Definition selectNode (nodeId : string) (multi : bool) (s : State) : State :=
  withSelection s (Store.selectNode nodeId multi (selection s)).

Definition selectEdge (edgeId : string) (multi : bool) (s : State) : State :=
  withSelection s (Store.selectEdge edgeId multi (selection s)).

Definition clearSelection (s : State) : State :=
  withSelection s (Store.clearSelection (selection s)).

(** [selectAll]: both sets are cleared, then every node id and every edge id
    is added in the order of the data; [lastSelected] is not touched. *)
Definition selectAll (s : State) : State :=
  withSelection s
    {| Store.selectedNodeIds :=
         fold_left JSSet.add (map id (nodes (data s))) (JSSet.clear
           (Store.selectedNodeIds (selection s)));
       Store.selectedEdgeIds :=
         fold_left JSSet.add (map eid (edges (data s))) (JSSet.clear
           (Store.selectedEdgeIds (selection s)));
       Store.lastSelected := Store.lastSelected (selection s);
       Store.selectionMode := Store.selectionMode (selection s) |}.

Definition isNodeSelected (nodeId : string) (s : State) : bool :=
  JSSet.has (Store.selectedNodeIds (selection s)) nodeId.

Definition isEdgeSelected (edgeId : string) (s : State) : bool :=
  JSSet.has (Store.selectedEdgeIds (selection s)) edgeId.

Definition getSelectedNodes (s : State) : list NodeData :=
  filter (fun node => JSSet.has (Store.selectedNodeIds (selection s)) (id node))
         (nodes (data s)).

Definition getSelectedEdges (s : State) : list EdgeData :=
  filter (fun edge => JSSet.has (Store.selectedEdgeIds (selection s)) (eid edge))
         (edges (data s)).

(** [saveToHistory]. [JSON.parse(JSON.stringify(data))] copies the nodes and
    edges as they are. *)
Definition saveToHistory (s : State) : State :=
  let newHistory := firstn (historyIndex s + 1) (history s) ++ [data s] in
  if 50 <? length newHistory
  then withHistory s (data s) (tl newHistory) (historyIndex s)
  else withHistory s (data s) newHistory (historyIndex s + 1).

(** [history[i]] read and copied; an index outside the array gives
    [undefined], on which [JSON.parse] throws: [None]. *)
Definition restore (s : State) (i : nat) : option State :=
  match nth_error (history s) i with
  | Some d => Some (withHistory s d (history s) i)
  | None => None
  end.

Definition undo (s : State) : option State :=
  if 0 <? historyIndex s then restore s (historyIndex s - 1) else Some s.

(** [historyIndex < history.length - 1], with the length possibly 0. *)
Definition canRedo (s : State) : bool :=
  historyIndex s + 1 <? length (history s).

Definition canUndo (s : State) : bool := 0 <? historyIndex s.

Definition redo (s : State) : option State :=
  if canRedo s then restore s (historyIndex s + 1) else Some s.

Definition setNodeTypeFilter (types : JSSet.t) (s : State) : State :=
  {| data := data s; selection := selection s; isDirty := isDirty s;
     history := history s; historyIndex := historyIndex s;
     nodeTypes := types; edgeTypes := edgeTypes s;
     searchQuery := searchQuery s |}.

Definition setEdgeTypeFilter (types : JSSet.t) (s : State) : State :=
  {| data := data s; selection := selection s; isDirty := isDirty s;
     history := history s; historyIndex := historyIndex s;
     nodeTypes := nodeTypes s; edgeTypes := types;
     searchQuery := searchQuery s |}.

Definition setSearchQuery (query : string) (s : State) : State :=
  {| data := data s; selection := selection s; isDirty := isDirty s;
     history := history s; historyIndex := historyIndex s;
     nodeTypes := nodeTypes s; edgeTypes := edgeTypes s;
     searchQuery := query |}.

(** [initialFilter.nodeTypes] and [initialFilter.edgeTypes]. *)
Definition initialNodeTypes : JSSet.t :=
  ["condition"; "exercise"; "equipment"; "metric"].

Definition initialEdgeTypes : JSSet.t :=
  ["treats"; "requires"; "measures"; "related_to"].

Definition clearFilters (s : State) : State :=
  {| data := data s; selection := selection s; isDirty := isDirty s;
     history := history s; historyIndex := historyIndex s;
     nodeTypes := initialNodeTypes; edgeTypes := initialEdgeTypes;
     searchQuery := "" |}.

Definition getNodeById (nodeId : string) (s : State) : option NodeData :=
  find (fun node => String.eqb (id node) nodeId) (nodes (data s)).

Definition getEdgeById (edgeId : string) (s : State) : option EdgeData :=
  find (fun edge => String.eqb (eid edge) edgeId) (edges (data s)).

Definition getConnectedEdges (nodeId : string) (s : State) : list EdgeData :=
  filter (fun edge => String.eqb (source edge) nodeId
                      || String.eqb (target edge) nodeId)
         (edges (data s)).

Definition getNeighborNodes (nodeId : string) (s : State) : list NodeData :=
  let connectedEdges := getConnectedEdges nodeId s in
  let neighborIds :=
    map (fun edge => if String.eqb (source edge) nodeId
                     then target edge else source edge) connectedEdges in
  filter (fun node => includes neighborIds (id node)) (nodes (data s)).

End GraphStore.

(** ** The rest of [GraphCanvasOptimized] *)

(** The constants that [initializeSimulation] picks from the node count;
    [preTicks] is the argument of [simulation.tick] when the simulation is
    stopped and stepped at once, [None] when it is left running. *)
Record SimulationSetup := mkSetup {
  chargeStrength : Z;
  linkDistance : Z;
  preTicks : option nat
}.

Definition initializeSimulation (nodeCount : nat) : SimulationSetup :=
  {| chargeStrength := if 200 <? nodeCount then (-100)%Z else (-300)%Z;
     linkDistance := if 200 <? nodeCount then 150%Z else 120%Z;
     preTicks := if 100 <? nodeCount
                 then Some (Nat.min 300 (nodeCount * 2))
                 else None |}.

(** The delay after which [render] stops the simulation, in milliseconds. *)
Definition stopTime (nodeCount : nat) : nat :=
  if 100 <? nodeCount then 2000 else 5000.

(** ** The rest of [GraphSearch] and [D3ForceGraph] *)

(** [handleNodeTypeToggle] and [handleEdgeTypeToggle] of [GraphSearch]: the
    set handed to [setNodeTypeFilter] or [setEdgeTypeFilter]. *)
Definition handleTypeToggle (ty : string) (types : JSSet.t) : JSSet.t :=
  if JSSet.has types ty then JSSet.delete types ty else JSSet.add types ty.

(** [handleSearchResultClick]: [clearSelection(); selectNode(nodeId)]. *)
Definition handleSearchResultClick (nodeId : string) (s : GraphStore.State)
    : GraphStore.State :=
  GraphStore.selectNode nodeId false (GraphStore.clearSelection s).

(** The [connections] of the node-info panel that the click handler of
    [D3ForceGraph] fills in when it finds the clicked node in the data. *)
Record Connections := mkConnections {
  incoming : nat;
  outgoing : nat;
  connEdges : list (string * string * string)
}.

Definition connectionsOf (data : GraphData) (nodeId : string)
    : option Connections :=
  match find (fun n => String.eqb (id n) nodeId) (nodes data) with
  | Some _ =>
      let incomingEdges :=
        filter (fun e => String.eqb (target e) nodeId) (edges data) in
      let outgoingEdges :=
        filter (fun e => String.eqb (source e) nodeId) (edges data) in
      Some {| incoming := length incomingEdges;
              outgoing := length outgoingEdges;
              connEdges := map (fun e => (etype e, source e, target e))
                               (incomingEdges ++ outgoingEdges) |}
  | None => None
  end.

(** ** More notions used in the statements *)

(** Every edge of the graph joins two nodes of the graph. *)
Definition wellFormed (d : GraphData) : Prop :=
  forall e, In e (edges d) ->
            In (source e) (map id (nodes d)) /\ In (target e) (map id (nodes d)).

Definition isSelfLoop (e : EdgeData) : bool := String.eqb (source e) (target e).

(** The invariant of the undo history. *)
Definition historyOk (s : GraphStore.State) : Prop :=
  GraphStore.historyIndex s < length (GraphStore.history s)
  /\ length (GraphStore.history s) <= 50.

(** Whether the reducer folds the node into a cluster node. *)
Definition folded (thr : Z) (nt ex : JSSet.t) (data : GraphData) (n : NodeData)
    : bool :=
  JSSet.has nt (type n)
  && collapsed thr ex (clusterKey (type n),
                       groupMembers nt (clusterKey (type n)) (nodes data)).

Definition withNodeTypes (f : FilterState) (types : JSSet.t) : FilterState :=
  {| searchQuery := searchQuery f; nodeTypes := types; edgeTypes := edgeTypes f;
     visibilityMode := visibilityMode f; maxVisibleNodes := maxVisibleNodes f;
     zoomLevel := zoomLevel f |}.

Definition sampleState : GraphStore.State :=
  {| GraphStore.data := scenarioGraph;
     GraphStore.selection := Store.initialSelection;
     GraphStore.isDirty := false;
     GraphStore.history := [threeExercises; scenarioGraph];
     GraphStore.historyIndex := 1;
     GraphStore.nodeTypes := GraphStore.initialNodeTypes;
     GraphStore.edgeTypes := GraphStore.initialEdgeTypes;
     GraphStore.searchQuery := "" |}.

(** ** The functions that go through the string built-ins *)

(** Lower-casing of the letters A to Z: what [toLowerCase] does on a string of
    ASCII characters. *)
Definition lowerChar (c : ascii) : ascii :=
  let n := nat_of_ascii c in
  if (65 <=? n) && (n <=? 90) then ascii_of_nat (n + 32) else c.

Fixpoint toLowerAscii (s : string) : string :=
  match s with
  | EmptyString => EmptyString
  | String c s' => String (lowerChar c) (toLowerAscii s')
  end.

(** [String.prototype.toLowerCase], the [length] of a string and
    [String.prototype.substring] follow the Unicode tables and count UTF-16
    code units. They are taken as they are: the functions below are defined,
    and every statement about them holds, whatever the three built-ins
    compute. *)
Class Builtins := {
  toLowerCase : string -> string;
  strLength : string -> nat;
  substring : nat -> nat -> string -> string
}.

(** On strings of ASCII characters the built-ins are these: the instance for
    ASCII labels and queries. *)
Definition asciiBuiltins : Builtins :=
  {| toLowerCase := toLowerAscii;
     strLength := String.length;
     substring := String.substring |}.

Section WithBuiltins.

Context {js : Builtins}.

Definition labelMatches (searchQuery : string) (node : VNode) : bool :=
  strIncludes (toLowerCase (vlabel node)) (toLowerCase searchQuery).

(** "Apply search filter" *)
Definition searchFilter (searchQuery : string)
    (vs : list VNode * list EdgeData) : list VNode * list EdgeData :=
  let '(visibleNodes, visibleEdges) := vs in
  if truthy searchQuery then
    let matchingNodeIds :=
      JSSet.of_list (map vid (filter (labelMatches searchQuery) visibleNodes)) in
    (filter (fun node => JSSet.has matchingNodeIds (vid node)) visibleNodes,
     filter (bothIn matchingNodeIds) visibleEdges)
  else vs.

Definition visibleData (f : FilterState) (imp : JSMap.t nat) (c : Clustered)
    : list VNode * list EdgeData :=
  lodCull (zoomLevel f) imp
    (importanceCap (visibilityMode f) (maxVisibleNodes f) imp
       (typeFilter (nodeTypes f) (edgeTypes f)
          (searchFilter (searchQuery f) (cnodes c, cedges c)))).

(** The whole pipeline from the store's data to the node and link arrays that
    [render] copies field by field and hands to [initializeSimulation]. *)
Definition simulated (p : Props) (expandedClusters : JSSet.t) (f : FilterState)
    (data : GraphData) : list VNode * list EdgeData :=
  visibleData f (nodeImportance data)
    (clusteredData (enableClustering p) (clusterThreshold p)
       (nodeTypes f) expandedClusters data).

(** [render] of [GraphCanvasOptimized], once [initializeCanvas] has found
    the SVG element: the arrays go to [initializeSimulation], whose calls
    into d3 are [forceSimulation]. There is no [try] around them: what
    [forceSimulation] throws leaves [render]. *)
Section Render.

Variables Simulation Error : Type.
Variable forceSimulation :
  list VNode -> list EdgeData -> ForceGraph.Result Error Simulation.

Definition render (p : Props) (expandedClusters : JSSet.t) (f : FilterState)
    (data : GraphData)
    : ForceGraph.Result Error (list VNode * list EdgeData * Simulation) :=
  let '(d3Nodes, d3Links) := simulated p expandedClusters f data in
  match forceSimulation d3Nodes d3Links with
  | ForceGraph.Returns sim => ForceGraph.Returns (d3Nodes, d3Links, sim)
  | ForceGraph.Throws e => ForceGraph.Throws e
  end.

End Render.

(** The label under a node: [label.length > 12 ? label.substring(0, 12) +
    '...' : label], or the number of children of a cluster. *)
Definition textOf (d : VNode) : string :=
  match d with
  | Cluster c => string_of_nat (length (childNodes c)) ++ " nodes"
  | Plain n =>
      if 12 <? strLength (label n)
      then substring 0 12 (label n) ++ "..."
      else label n
  end.

Definition renderNode (zoomLevel : Q) (d : VNode) : NodeGlyph :=
  match detailTier zoomLevel with
  | FullDetail => CircleWithLabel (radiusOf d) (fillOf d) (textOf d)
  | ReducedDetail => Dot (if isClusterNode d then 8%Q else 4%Q) (fillOf d)
  end.

End WithBuiltins.

(** * Properties *)

(** ** Sets in insertion order *)

Section SetFacts.
Implicit Types (s : JSSet.t) (x y : string).

Lemma has_In s x : JSSet.has s x = true <-> In x s.
Proof.
  unfold JSSet.has. rewrite existsb_exists. split.
  - intros [y [Hy E]]. apply String.eqb_eq in E. now subst.
  - intros H. exists x. split; [assumption | apply String.eqb_refl].
Qed.

Lemma has_false_In s x : JSSet.has s x = false <-> ~ In x s.
Proof.
  rewrite <- has_In. destruct (JSSet.has s x); split; congruence.
Qed.

Lemma has_add s x y :
  JSSet.has (JSSet.add s x) y = String.eqb y x || JSSet.has s y.
Proof.
  unfold JSSet.add. destruct (JSSet.has s x) eqn:E.
  - destruct (String.eqb_spec y x) as [->|]; simpl; [now rewrite E | reflexivity].
  - unfold JSSet.has. rewrite existsb_app. simpl.
    rewrite orb_false_r. apply orb_comm.
Qed.

Lemma In_add s x y : In y (JSSet.add s x) <-> y = x \/ In y s.
Proof.
  rewrite <- !has_In, has_add, orb_true_iff, String.eqb_eq. tauto.
Qed.

Lemma In_fold_add (l : list string) s x :
  In x (fold_left JSSet.add l s) <-> In x s \/ In x l.
Proof.
  revert s. induction l as [|a l IH]; intros s; simpl.
  - tauto.
  - rewrite IH, In_add. intuition (subst; auto).
Qed.

Lemma In_of_list (l : list string) x : In x (JSSet.of_list l) <-> In x l.
Proof.
  unfold JSSet.of_list. rewrite In_fold_add. simpl. tauto.
Qed.

End SetFacts.

(** ** Maps in insertion order *)

Section MapFacts.
Context {V : Type}.
Implicit Types (m : JSMap.t V) (k : string) (v : V).

Lemma get_set_same m k v : JSMap.get (JSMap.set m k v) k = Some v.
Proof.
  induction m as [|[k' v'] m IH]; simpl.
  - now rewrite String.eqb_refl.
  - destruct (String.eqb k k') eqn:E; simpl; rewrite E; auto.
Qed.

Lemma get_set_other m k k' v :
  k <> k' -> JSMap.get (JSMap.set m k v) k' = JSMap.get m k'.
Proof.
  intros Hne. induction m as [|[k0 v0] m IH]; simpl.
  - destruct (String.eqb_spec k' k); congruence.
  - destruct (String.eqb_spec k k0) as [->|]; simpl.
    + destruct (String.eqb_spec k' k0); congruence.
    + now rewrite IH.
Qed.

Lemma get_None_keys m k : JSMap.get m k = None <-> ~ In k (JSMap.keys m).
Proof.
  induction m as [|[k' v'] m IH]; simpl.
  - tauto.
  - destruct (String.eqb_spec k k') as [->|Hne].
    + split; [discriminate | tauto].
    + rewrite IH. intuition congruence.
Qed.

Lemma keys_set m k v :
  JSMap.keys (JSMap.set m k v) =
  match JSMap.get m k with
  | Some _ => JSMap.keys m
  | None => JSMap.keys m ++ [k]
  end.
Proof.
  induction m as [|[k' v'] m IH]; simpl.
  - reflexivity.
  - destruct (String.eqb_spec k k') as [->|Hne]; simpl.
    + reflexivity.
    + rewrite IH. now destruct (JSMap.get m k).
Qed.

Lemma NoDup_keys_set m k v :
  NoDup (JSMap.keys m) -> NoDup (JSMap.keys (JSMap.set m k v)).
Proof.
  intros H. rewrite keys_set. destruct (JSMap.get m k) eqn:E.
  - assumption.
  - apply get_None_keys in E.
    apply NoDup_rev in H. rewrite <- (rev_involutive (_ ++ _)), rev_app_distr.
    apply NoDup_rev. simpl. constructor; [now rewrite <- in_rev | assumption].
Qed.

Lemma In_set m k v k' v' :
  In (k', v') (JSMap.set m k v) -> (k' = k /\ v' = v) \/ In (k', v') m.
Proof.
  induction m as [|[k0 v0] m IH]; simpl.
  - intros [E|[]]. inversion E. auto.
  - destruct (String.eqb_spec k k0) as [->|Hne]; simpl.
    + intros [E|H]; [inversion E; auto | auto].
    + intros [E|H]; [auto | destruct (IH H); auto].
Qed.

Lemma get_In m k v : JSMap.get m k = Some v -> In (k, v) m.
Proof.
  induction m as [|[k' v'] m IH]; simpl; [discriminate|].
  destruct (String.eqb_spec k k') as [->|Hne].
  - intros E. inversion E. auto.
  - auto.
Qed.

Lemma In_get m k v : NoDup (JSMap.keys m) -> In (k, v) m -> JSMap.get m k = Some v.
Proof.
  induction m as [|[k' v'] m IH]; simpl; [tauto|].
  intros Hnd [E|H]; inversion Hnd as [|? ? Hnotin Hnd']; subst.
  - inversion E; subst. now rewrite String.eqb_refl.
  - destruct (String.eqb_spec k k') as [->|Hne].
    + exfalso. apply Hnotin. change k' with (fst (k', v)). now apply in_map.
    + auto.
Qed.

(** An invariant of every entry is kept by a loop of [set]s. *)
Lemma fold_set_invariant {A : Type} (key : A -> string) (val : A -> V)
      (P : string -> V -> Prop) (l : list A) m :
  (forall a, In a l -> P (key a) (val a)) ->
  (forall k v, In (k, v) m -> P k v) ->
  forall k v,
    In (k, v) (fold_left (fun m a => JSMap.set m (key a) (val a)) l m) -> P k v.
Proof.
  revert m. induction l as [|a l IH]; simpl; intros m Hl Hm k v H.
  - auto.
  - apply (IH (JSMap.set m (key a) (val a))); auto.
    intros k' v' H'. apply In_set in H'. destruct H' as [[-> ->]|H']; auto.
Qed.

Lemma fold_set_NoDup {A : Type} (key : A -> string) (val : A -> V)
      (l : list A) m :
  NoDup (JSMap.keys m) ->
  NoDup (JSMap.keys (fold_left (fun m a => JSMap.set m (key a) (val a)) l m)).
Proof.
  revert m. induction l as [|a l IH]; simpl; intros m H; auto.
  apply IH. now apply NoDup_keys_set.
Qed.

(** After the loop, a key holds the value of its last [set]. *)
Lemma fold_set_get {A : Type} (key : A -> string) (val : A -> V)
      (l : list A) m k :
  JSMap.get (fold_left (fun m a => JSMap.set m (key a) (val a)) l m) k =
  match find (fun a => String.eqb (key a) k) (rev l) with
  | Some a => Some (val a)
  | None => JSMap.get m k
  end.
Proof.
  revert m. induction l as [|a l IH]; simpl; intros m.
  - reflexivity.
  - rewrite IH. clear IH.
    induction (rev l) as [|b r IHr]; simpl.
    + destruct (String.eqb_spec (key a) k) as [<-|Hne].
      * apply get_set_same.
      * now apply get_set_other.
    + destruct (String.eqb (key b) k); auto.
Qed.

End MapFacts.

(** ** Deduplication by the composite key *)

Lemma uniqueByKey_entries es k e :
  In (k, e) (JSMap.of_entries (map (fun e => (edgeKey e, e)) es)) ->
  k = edgeKey e /\ In e es.
Proof.
  unfold JSMap.of_entries.
  apply (fold_set_invariant fst snd (fun k e => k = edgeKey e /\ In e es)).
  - intros [k' e'] H. apply in_map_iff in H. destruct H as [x [E Hx]].
    inversion E; subst. auto.
  - intros ? ? [].
Qed.

Lemma uniqueByKey_In es e : In e (uniqueByKey es) -> In e es.
Proof.
  unfold uniqueByKey, JSMap.values. intros H.
  apply in_map_iff in H. destruct H as [[k e'] [E H]]. simpl in E. subst e'.
  now apply uniqueByKey_entries in H.
Qed.

Lemma uniqueByKey_keys es :
  map edgeKey (uniqueByKey es) =
  JSMap.keys (JSMap.of_entries (map (fun e => (edgeKey e, e)) es)).
Proof.
  unfold uniqueByKey, JSMap.values, JSMap.keys. rewrite map_map.
  apply map_ext_in. intros [k e] H. simpl.
  apply uniqueByKey_entries in H. now destruct H.
Qed.

Lemma uniqueByKey_NoDup es : NoDup (map edgeKey (uniqueByKey es)).
Proof.
  rewrite uniqueByKey_keys. apply fold_set_NoDup. constructor.
Qed.

Lemma uniqueByKey_get es k :
  JSMap.get (JSMap.of_entries (map (fun e => (edgeKey e, e)) es)) k =
  lastWithKey es k.
Proof.
  unfold JSMap.of_entries, lastWithKey. rewrite fold_set_get. simpl.
  rewrite <- map_rev.
  induction (rev es) as [|a r IH]; simpl; [reflexivity|].
  destruct (String.eqb (edgeKey a) k); auto.
Qed.

Lemma lastWithKey_Some es e :
  In e es -> exists e', lastWithKey es (edgeKey e) = Some e'.
Proof.
  intros H. unfold lastWithKey.
  destruct (find _ (rev es)) as [e'|] eqn:E; [eauto|].
  assert (X := find_none _ _ E e (proj1 (in_rev es e) H)).
  simpl in X. rewrite String.eqb_refl in X. discriminate.
Qed.

Lemma uniqueByKey_last es e e' :
  lastWithKey es (edgeKey e) = Some e' ->
  In e' (uniqueByKey es) /\ edgeKey e' = edgeKey e.
Proof.
  intros H. rewrite <- uniqueByKey_get in H. apply get_In in H.
  split.
  - unfold uniqueByKey, JSMap.values. apply in_map_iff. now exists (edgeKey e, e').
  - apply uniqueByKey_entries in H. now destruct H.
Qed.

Lemma uniqueByKey_represents es e :
  In e es -> exists e', In e' (uniqueByKey es) /\ edgeKey e' = edgeKey e.
Proof.
  intros H. destruct (lastWithKey_Some es e H) as [e' E].
  exists e'. now apply uniqueByKey_last.
Qed.

Lemma noDash_separator s t : noDash (s ++ String "-"%char t) = false.
Proof.
  induction s as [|c s IH]; simpl.
  - reflexivity.
  - rewrite IH. apply andb_false_r.
Qed.

Lemma edgeKey_split c1 c2 s t :
  noDash c1 = true -> noDash c2 = true ->
  (c1 ++ "-" ++ c2 = s ++ "-" ++ t)%string -> s = c1 /\ t = c2.
Proof.
  revert s. induction c1 as [|a c1 IH]; intros s H1 H2 E.
  - destruct s as [|b s]; simpl in E.
    + inversion E. auto.
    + inversion E; subst. rewrite noDash_separator in H2. discriminate.
  - simpl in H1. apply andb_true_iff in H1. destruct H1 as [Ha H1].
    destruct s as [|b s]; simpl in E.
    + inversion E; subst. discriminate.
    + inversion E; subst. destruct (IH s H1 H2) as [-> ->]; auto.
Qed.

Lemma uniqueByKey_represents_pair es e :
  In e es -> noDash (source e) = true -> noDash (target e) = true ->
  exists e', In e' (uniqueByKey es)
             /\ source e' = source e /\ target e' = target e.
Proof.
  intros H Hs Ht. destruct (uniqueByKey_represents es e H) as [e' [Hin E]].
  exists e'. split; [assumption|].
  unfold edgeKey in E. symmetry in E. now apply edgeKey_split in E.
Qed.

Lemma uniqueByKey_NoDup_pairs es :
  NoDup (map (fun e => (source e, target e)) (uniqueByKey es)).
Proof.
  apply (NoDup_map_inv (fun p : string * string => (fst p ++ "-" ++ snd p)%string)).
  rewrite map_map. apply uniqueByKey_NoDup.
Qed.

(** ** The two paths of the reducer *)

Lemma clusteredData_passthrough enable thr nt ex data :
  enable = false \/ (Z.of_nat (length (nodes data)) < thr)%Z ->
  clusteredData enable thr nt ex data =
  {| cnodes := map Plain (nodes data); cedges := edges data |}.
Proof.
  intros H. unfold clusteredData.
  destruct H as [-> | H]; simpl; [reflexivity|].
  apply Z.ltb_lt in H. rewrite H. now rewrite orb_true_r.
Qed.

Lemma clusteredData_clustering thr nt ex data :
  (thr <= Z.of_nat (length (nodes data)))%Z ->
  clusteredData true thr nt ex data =
  {| cnodes := map Plain (remainingNodesOf thr nt ex data)
               ++ map Cluster (clusterNodesOf thr nt ex data);
     cedges := uniqueByKey (updatedEdgesOf thr nt ex data) |}.
Proof.
  intros H. unfold clusteredData, remainingNodesOf, updatedEdgesOf, clusterNodesOf.
  apply Z.ltb_ge in H. rewrite H. simpl.
  now destruct (collapse thr ex (groupByType nt (nodes data))).
Qed.

(** ** Grouping by type *)

Lemma get_groupStep nt m n k :
  JSMap.get (groupStep nt m n) k =
  if inGroup nt k n
  then Some (match JSMap.get m k with Some l => l ++ [n] | None => [n] end)
  else JSMap.get m k.
Proof.
  unfold groupStep, inGroup.
  destruct (JSSet.has nt (type n)); cbn [andb]; [|reflexivity].
  destruct (JSMap.get m (clusterKey (type n))) as [l|] eqn:E.
  - rewrite E. destruct (String.eqb_spec (clusterKey (type n)) k) as [<-|Hne].
    + now rewrite get_set_same, E.
    + now rewrite get_set_other.
  - rewrite get_set_same. cbn [app].
    destruct (String.eqb_spec (clusterKey (type n)) k) as [<-|Hne].
    + now rewrite get_set_same, E.
    + now rewrite !get_set_other.
Qed.

Lemma NoDup_keys_groupStep nt m n :
  NoDup (JSMap.keys m) -> NoDup (JSMap.keys (groupStep nt m n)).
Proof.
  intros H. unfold groupStep.
  destruct (JSSet.has nt (type n)); [|assumption].
  destruct (JSMap.get m (clusterKey (type n))) as [l|] eqn:E.
  - rewrite E. now apply NoDup_keys_set.
  - rewrite get_set_same. now apply NoDup_keys_set, NoDup_keys_set.
Qed.

Lemma get_fold_groupStep nt ns m k :
  JSMap.get (fold_left (groupStep nt) ns m) k =
  match JSMap.get m k, groupMembers nt k ns with
  | Some l, g => Some (l ++ g)
  | None, [] => None
  | None, g => Some g
  end.
Proof.
  revert m. induction ns as [|n ns IH]; intros m; simpl.
  - destruct (JSMap.get m k); [now rewrite app_nil_r | reflexivity].
  - rewrite IH, get_groupStep. unfold groupMembers.
    destruct (inGroup nt k n).
    + destruct (JSMap.get m k); simpl; [now rewrite <- app_assoc | reflexivity].
    + reflexivity.
Qed.

Lemma NoDup_keys_fold_groupStep nt ns m :
  NoDup (JSMap.keys m) -> NoDup (JSMap.keys (fold_left (groupStep nt) ns m)).
Proof.
  revert m. induction ns as [|n ns IH]; intros m H; simpl; [assumption|].
  now apply IH, NoDup_keys_groupStep.
Qed.

Lemma NoDup_keys_groupByType nt ns : NoDup (JSMap.keys (groupByType nt ns)).
Proof.
  apply NoDup_keys_fold_groupStep. constructor.
Qed.

Lemma get_groupByType nt ns k :
  JSMap.get (groupByType nt ns) k =
  match groupMembers nt k ns with
  | [] => None
  | g => Some g
  end.
Proof.
  unfold groupByType. now rewrite get_fold_groupStep.
Qed.

(** The entries of [clusters]: each key with the nodes of its type, in the
    order of the data, and never an empty group. *)
Lemma In_groupByType nt ns k g :
  In (k, g) (groupByType nt ns) <-> g = groupMembers nt k ns /\ g <> [].
Proof.
  split.
  - intros H. apply In_get in H; [|apply NoDup_keys_groupByType].
    rewrite get_groupByType in H.
    destruct (groupMembers nt k ns) eqn:E; [discriminate|].
    inversion H; subst. split; [reflexivity | discriminate].
  - intros [-> Hne]. apply get_In. rewrite get_groupByType.
    destruct (groupMembers nt k ns); [contradiction | reflexivity].
Qed.

(** ** Collapsing the large groups *)

Lemma collapse_fold thr ex m cs rs :
  fold_left (collapseStep thr ex) m (cs, rs) =
  (cs ++ map (fun e => mkClusterNode (fst e) (snd e)) (filter (collapsed thr ex) m),
   rs ++ flat_map snd (filter (fun e => negb (collapsed thr ex e)) m)).
Proof.
  revert cs rs. induction m as [|[k g] m IH]; intros cs rs.
  - simpl. now rewrite !app_nil_r.
  - cbn [fold_left filter].
    replace (collapseStep thr ex (cs, rs) (k, g))
      with (if collapsed thr ex (k, g)
            then (cs ++ [mkClusterNode k g], rs)
            else (cs, rs ++ g)) by reflexivity.
    destruct (collapsed thr ex (k, g)); cbn [negb map flat_map fst snd];
      rewrite IH, <- app_assoc; reflexivity.
Qed.

Lemma collapse_spec thr ex m :
  collapse thr ex m =
  (map (fun e => mkClusterNode (fst e) (snd e)) (filter (collapsed thr ex) m),
   flat_map snd (filter (fun e => negb (collapsed thr ex e)) m)).
Proof.
  unfold collapse. now rewrite collapse_fold.
Qed.

Lemma In_clusterNodesOf thr nt ex data c :
  In c (clusterNodesOf thr nt ex data) <->
  exists k,
    let g := groupMembers nt k (nodes data) in
    c = mkClusterNode k g /\ g <> []
    /\ (thr < Z.of_nat (length g))%Z /\ JSSet.has ex k = false.
Proof.
  unfold clusterNodesOf. rewrite collapse_spec. simpl.
  rewrite in_map_iff. split.
  - intros [[k g] [E H]]. apply filter_In in H. destruct H as [Hin Hc].
    apply In_groupByType in Hin. destruct Hin as [-> Hne].
    unfold collapsed in Hc. simpl in *.
    apply andb_true_iff in Hc. destruct Hc as [Hlt Hex].
    apply Z.ltb_lt in Hlt. apply negb_true_iff in Hex.
    exists k. auto.
  - intros [k [-> [Hne [Hlt Hex]]]].
    exists (k, groupMembers nt k (nodes data)). split; [reflexivity|].
    apply filter_In. split.
    + now apply In_groupByType.
    + unfold collapsed. simpl. apply Z.ltb_lt in Hlt. now rewrite Hlt, Hex.
Qed.

Lemma NoDup_map_fst_filter {A B : Type} (f : A * B -> bool) (l : list (A * B)) :
  NoDup (map fst l) -> NoDup (map fst (filter f l)).
Proof.
  induction l as [|a l IH]; simpl; intros H; [constructor|].
  inversion H as [|? ? Hnotin Hnd]; subst.
  destruct (f a); simpl; auto.
  constructor; auto.
  intros Hin. apply Hnotin. apply in_map_iff in Hin.
  destruct Hin as [x [E Hx]]. apply filter_In in Hx.
  apply in_map_iff. exists x. tauto.
Qed.

Lemma NoDup_cid_clusterNodesOf thr nt ex data :
  NoDup (map cid (clusterNodesOf thr nt ex data)).
Proof.
  unfold clusterNodesOf. rewrite collapse_spec. simpl.
  rewrite map_map. simpl.
  apply NoDup_map_fst_filter, NoDup_keys_groupByType.
Qed.

Lemma In_collapse_remaining thr nt ex data n :
  In n (snd (collapse thr ex (groupByType nt (nodes data)))) <->
  In n (nodes data) /\ JSSet.has nt (type n) = true
  /\ collapsed thr ex (clusterKey (type n),
                       groupMembers nt (clusterKey (type n)) (nodes data)) = false.
Proof.
  rewrite collapse_spec. simpl. rewrite in_flat_map. split.
  - intros [[k g] [H Hn]]. apply filter_In in H. destruct H as [Hin Hc].
    apply In_groupByType in Hin. destruct Hin as [-> Hne]. simpl in Hn.
    apply filter_In in Hn. destruct Hn as [Hn Hg].
    unfold inGroup in Hg. apply andb_true_iff in Hg. destruct Hg as [Hnt Hk].
    apply String.eqb_eq in Hk. subst k.
    apply negb_true_iff in Hc. auto.
  - intros [Hn [Hnt Hc]].
    exists (clusterKey (type n), groupMembers nt (clusterKey (type n)) (nodes data)).
    assert (Hmem : In n (groupMembers nt (clusterKey (type n)) (nodes data))).
    { apply filter_In. split; [assumption|].
      unfold inGroup. now rewrite Hnt, String.eqb_refl. }
    split; [|exact Hmem].
    apply filter_In. split.
    + apply In_groupByType. split; [reflexivity|].
      intros E. rewrite E in Hmem. contradiction.
    + now rewrite Hc.
Qed.

(** ** Groups and their cluster nodes *)

Lemma clusterKey_inj a b : clusterKey a = clusterKey b -> a = b.
Proof.
  unfold clusterKey. simpl. intros E. now inversion E.
Qed.

Lemma groupMembers_active nt t ns :
  JSSet.has nt t = true -> groupMembers nt (clusterKey t) ns = typeGroup t ns.
Proof.
  intros H. apply filter_ext. intros n. unfold inGroup.
  destruct (String.eqb_spec (type n) t) as [->|Hne].
  - now rewrite H, String.eqb_refl.
  - destruct (String.eqb_spec (clusterKey (type n)) (clusterKey t)) as [E|_].
    + apply clusterKey_inj in E. contradiction.
    + apply andb_false_r.
Qed.

Lemma filter_none {A : Type} (f : A -> bool) (l : list A) :
  (forall x, In x l -> f x = false) -> filter f l = [].
Proof.
  induction l as [|a l IH]; simpl; intros H; [reflexivity|].
  rewrite (H a (or_introl eq_refl)). apply IH. auto.
Qed.

Lemma filter_unique_key {A : Type} (key : A -> string) (l : list A) (x : A) :
  NoDup (map key l) -> In x l ->
  filter (fun y => String.eqb (key y) (key x)) l = [x].
Proof.
  induction l as [|a l IH]; simpl; intros Hnd Hin; [contradiction|].
  inversion Hnd as [|? ? Hnotin Hnd']; subst.
  destruct Hin as [->|Hin].
  - rewrite String.eqb_refl. f_equal. apply filter_none.
    intros y Hy. apply String.eqb_neq. intros E. apply Hnotin.
    rewrite <- E. now apply in_map.
  - destruct (String.eqb_spec (key a) (key x)) as [E|_].
    + exfalso. apply Hnotin. rewrite E. now apply in_map.
    + now apply IH.
Qed.



Lemma In_Plain_app n (rem : list NodeData) (cn : list ClusterNode) :
  In (Plain n) (map Plain rem ++ map Cluster cn) <-> In n rem.
Proof.
  rewrite in_app_iff, !in_map_iff. split.
  - intros [[x [E H]]|[c [E _]]]; [now inversion E; subst | discriminate].
  - intros H. left. now exists n.
Qed.

Lemma In_Cluster_app c (rem : list NodeData) (cn : list ClusterNode) :
  In (Cluster c) (map Plain rem ++ map Cluster cn) <-> In c cn.
Proof.
  rewrite in_app_iff, !in_map_iff. split.
  - intros [[x [E _]]|[x [E H]]]; [discriminate | now inversion E; subst].
  - intros H. right. now exists c.
Qed.

Section GroupCollapse.
Variables (thr : Z) (nt ex : JSSet.t) (data : GraphData) (t : string).
Hypothesis Hactive : JSSet.has nt t = true.
Hypothesis Hunexpanded : JSSet.has ex (clusterKey t) = false.

Let out := cnodes (clusteredData true thr nt ex data).



End GroupCollapse.

(** The groups are the active types that occur in the data, each with all
    the nodes of its type. *)
Lemma group_is_type nt ns k g :
  In (k, g) (groupByType nt ns) ->
  exists t, k = clusterKey t /\ JSSet.has nt t = true
            /\ g = typeGroup t ns /\ g <> [].
Proof.
  intros H. apply In_groupByType in H. destruct H as [-> Hne].
  destruct (groupMembers nt k ns) as [|n0 g'] eqn:E; [contradiction|].
  assert (Hin : In n0 (groupMembers nt k ns)) by (rewrite E; now left).
  apply filter_In in Hin. destruct Hin as [_ Hg].
  unfold inGroup in Hg. apply andb_true_iff in Hg. destruct Hg as [Hnt Hk].
  apply String.eqb_eq in Hk. exists (type n0). subst k.
  rewrite <- E. repeat split; auto.
  - now apply groupMembers_active.
  - rewrite E. discriminate.
Qed.




(** ** Edge rewriting *)

Lemma rewriteStep_fold cn s t :
  fold_left rewriteStep cn (s, t) = (rewriteId cn s, rewriteId cn t).
Proof.
  revert s t. induction cn as [|c cn IH]; intros s t; simpl; [reflexivity|].
  apply IH.
Qed.

Lemma source_rewriteEdge cn e : source (rewriteEdge cn e) = rewriteId cn (source e).
Proof. unfold rewriteEdge. now rewrite rewriteStep_fold. Qed.

Lemma target_rewriteEdge cn e : target (rewriteEdge cn e) = rewriteId cn (target e).
Proof. unfold rewriteEdge. now rewrite rewriteStep_fold. Qed.

Lemma includes_In l x : includes l x = true <-> In x l.
Proof. apply has_In. Qed.

Lemma rewriteId_untouched cn x :
  (forall c, In c cn -> ~ In x (childNodes c)) -> rewriteId cn x = x.
Proof.
  induction cn as [|c cn IH]; simpl; intros H; [reflexivity|].
  destruct (includes (childNodes c) x) eqn:E.
  - apply includes_In in E. exfalso. apply (H c); auto.
  - apply IH. auto.
Qed.

Lemma rewriteId_split l1 c l2 x :
  (forall c', In c' l1 -> ~ In x (childNodes c')) ->
  In x (childNodes c) ->
  (forall c', In c' l2 -> ~ In (cid c) (childNodes c')) ->
  rewriteId (l1 ++ c :: l2) x = cid c.
Proof.
  intros H1 Hc H2. unfold rewriteId. rewrite fold_left_app. simpl.
  fold (rewriteId l1 x). rewrite (rewriteId_untouched l1 x H1).
  apply includes_In in Hc. rewrite Hc.
  now apply rewriteId_untouched.
Qed.

Lemma unique_id (l : list NodeData) n n' :
  NoDup (map id l) -> In n l -> In n' l -> id n = id n' -> n = n'.
Proof.
  induction l as [|a l IH]; simpl; intros Hnd Hn Hn' E; [contradiction|].
  inversion Hnd as [|? ? Hnotin Hnd']; subst.
  destruct Hn as [->|Hn], Hn' as [->|Hn']; auto.
  - exfalso. apply Hnotin. rewrite E. now apply in_map.
  - exfalso. apply Hnotin. rewrite <- E. now apply in_map.
Qed.

Lemma childNodes_member thr nt ex data c x :
  In c (clusterNodesOf thr nt ex data) -> In x (childNodes c) ->
  exists n, In n (nodes data) /\ id n = x /\ clusterKey (type n) = cid c.
Proof.
  intros Hc Hx. apply In_clusterNodesOf in Hc.
  destruct Hc as [k [-> _]]. cbn [childNodes cid mkClusterNode] in *.
  apply in_map_iff in Hx. destruct Hx as [n [E Hn]].
  apply filter_In in Hn. destruct Hn as [Hn Hg].
  unfold inGroup in Hg. apply andb_true_iff in Hg. destruct Hg as [_ Hk].
  apply String.eqb_eq in Hk. eauto.
Qed.

Section MemberRewritten.
Variables (thr : Z) (nt ex : JSSet.t) (data : GraphData).
Hypothesis Hunique : NoDup (map id (nodes data)).
Hypothesis Hfresh :
  forall n n', In n (nodes data) -> In n' (nodes data) ->
               id n <> clusterKey (type n').

Lemma member_rewritten c x :
  In c (clusterNodesOf thr nt ex data) -> In x (childNodes c) ->
  rewriteId (clusterNodesOf thr nt ex data) x = cid c.
Proof.
  intros Hc Hx.
  destruct (childNodes_member _ _ _ _ _ _ Hc Hx) as [n [Hn [Hid Hk]]].
  assert (Hnd := NoDup_cid_clusterNodesOf thr nt ex data).
  destruct (in_split _ _ Hc) as [l1 [l2 Esplit]].
  assert (Hall : forall c', In c' (l1 ++ c :: l2) ->
                            In c' (clusterNodesOf thr nt ex data))
    by (intros c' H'; now rewrite Esplit).
  rewrite Esplit in Hnd |- *.
  apply rewriteId_split; [|assumption|].
  - intros c' Hc' Hx'.
    assert (Hin' : In c' (l1 ++ c :: l2)) by (apply in_or_app; auto).
    destruct (childNodes_member _ _ _ _ _ _ (Hall c' Hin') Hx')
      as [n' [Hn' [Hid' Hk']]].
    assert (n = n') by (apply (unique_id (nodes data)); congruence).
    subst n'. rewrite map_app in Hnd. simpl in Hnd.
    apply NoDup_remove_2 in Hnd. apply Hnd.
    apply in_or_app. left. rewrite <- Hk, Hk'. now apply in_map.
  - intros c' Hc' Hx'.
    assert (Hin' : In c' (l1 ++ c :: l2)) by (apply in_or_app; simpl; auto).
    destruct (childNodes_member _ _ _ _ _ _ (Hall c' Hin') Hx')
      as [n' [Hn' [Hid' _]]].
    apply (Hfresh n' n Hn' Hn). congruence.
Qed.

End MemberRewritten.

Lemma In_Cluster_clusteredData thr nt ex data c :
  In (Cluster c) (cnodes (clusteredData true thr nt ex data)) ->
  (thr <= Z.of_nat (length (nodes data)))%Z
  /\ In c (clusterNodesOf thr nt ex data).
Proof.
  intros H.
  destruct (Z.ltb_spec (Z.of_nat (length (nodes data))) thr) as [Hearly|Hlate].
  - rewrite clusteredData_passthrough in H by auto. cbn [cnodes] in H.
    apply in_map_iff in H. destruct H as [n [E _]]. discriminate.
  - rewrite clusteredData_clustering in H by assumption.
    split; [assumption | now apply In_Cluster_app in H].
Qed.

(** C3, as stated, fails: an edge inside a collapsed group comes out of the
    reducer as a self-loop on the cluster node. *)
Lemma self_loop_on_cluster_counterexample :
  let out := clusteredData true 2 ["exercise"] [] threeExercises in
  ~ (forall e c, In e (cedges out) -> In (Cluster c) (cnodes out) ->
                 ~ (source e = cid c /\ target e = cid c)).
Proof.
  intros out H.
  apply (H (mkEdge "x" "cluster_exercise" "cluster_exercise" "related_to")
           (mkClusterNode "cluster_exercise" (nodes threeExercises))).
  - vm_compute. auto.
  - vm_compute. auto.
  - split; reflexivity.
Qed.

(** C3, amended. The reducer has no step that drops self-loops: when the ids
    of the data are pairwise distinct, none of them is the id of a cluster,
    and the cluster id contains no ["-"], an edge whose two endpoints are both
    children of one cluster node is rewritten to a self-loop on that cluster
    node, and the output edge list contains an edge from the cluster node to
    itself. *)
Theorem same_group_edge_kept_as_self_loop :
  forall (thr : Z) (nt ex : JSSet.t) (data : GraphData)
         (c : ClusterNode) (e : EdgeData),
    NoDup (map id (nodes data)) ->
    (forall n n', In n (nodes data) -> In n' (nodes data) ->
                  id n <> clusterKey (type n')) ->
    noDash (cid c) = true ->
    In (Cluster c) (cnodes (clusteredData true thr nt ex data)) ->
    In e (edges data) ->
    In (source e) (childNodes c) ->
    In (target e) (childNodes c) ->
    source (rewriteEdge (clusterNodesOf thr nt ex data) e) = cid c
    /\ target (rewriteEdge (clusterNodesOf thr nt ex data) e) = cid c
    /\ exists e', In e' (cedges (clusteredData true thr nt ex data))
                  /\ source e' = cid c /\ target e' = cid c.
Proof.
  intros thr nt ex data c e Hunique Hfresh Hdash Hc He Hs Ht.
  apply In_Cluster_clusteredData in Hc. destruct Hc as [Hpath Hc].
  assert (Es : source (rewriteEdge (clusterNodesOf thr nt ex data) e) = cid c).
  { rewrite source_rewriteEdge. now apply member_rewritten. }
  assert (Et : target (rewriteEdge (clusterNodesOf thr nt ex data) e) = cid c).
  { rewrite target_rewriteEdge. now apply member_rewritten. }
  repeat split; try assumption.
  rewrite clusteredData_clustering by assumption. cbn [cedges].
  destruct (uniqueByKey_represents_pair
              (updatedEdgesOf thr nt ex data)
              (rewriteEdge (clusterNodesOf thr nt ex data) e))
    as [e' [Hin [Hs' Ht']]].
  - unfold updatedEdgesOf. now apply in_map.
  - now rewrite Es.
  - now rewrite Et.
  - exists e'. repeat split; congruence.
Qed.

Lemma same_group_edge_kept_as_self_loop_witness :
  exists e', In e' (cedges (clusteredData true 2 ["exercise"] [] threeExercises))
             /\ source e' = "cluster_exercise" /\ target e' = "cluster_exercise".
Proof.
  apply (same_group_edge_kept_as_self_loop
           2 ["exercise"] [] threeExercises
           (mkClusterNode "cluster_exercise" (nodes threeExercises))
           (mkEdge "x" "e1" "e2" "related_to")).
  - simpl. repeat constructor; simpl; intuition discriminate.
  - simpl. intros n n' [<-|[<-|[<-|[]]]] [<-|[<-|[<-|[]]]]; discriminate.
  - reflexivity.
  - vm_compute. auto.
  - simpl. auto.
  - simpl. auto.
  - simpl. auto.
Defined.

(** ** Pass-through and deduplication *)

(** C10. Two edges of the data with different (source, target) pairs, from
    "a-b" to "c" and from "a" to "b-c", take the clustering path unchanged by
    the rewriting and receive the same key "a-b-c". The deduplication keeps
    the second under that key: the first edge, which has no duplicate, is
    gone, and its pair has no representative in the output. *)
Theorem key_collision_drops_unduplicated_edge :
  let rewritten := updatedEdgesOf 2 allNodeTypes [] dashedIds in
  let out := cedges (clusteredData true 2 allNodeTypes [] dashedIds) in
  rewritten = [mkEdge "x" "a-b" "c" "treats"; mkEdge "y" "a" "b-c" "requires"]
  /\ map edgeKey rewritten = ["a-b-c"; "a-b-c"]
  /\ out = [mkEdge "y" "a" "b-c" "requires"]
  /\ ~ (exists e', In e' out /\ source e' = "a-b" /\ target e' = "c").
Proof.
  intros rewritten out. split; [|split; [|split]].
  - vm_compute. reflexivity.
  - vm_compute. reflexivity.
  - vm_compute. reflexivity.
  - intros [e' [Hin [Hs _]]]. vm_compute in Hin.
    destruct Hin as [<-|[]]. discriminate.
Qed.

(** X28. With clustering disabled, or fewer nodes than
    [clusterThreshold], the reducer returns the data as given (duplicate
    edges included). On the clustering path the rewritten edges are
    deduplicated by the string [`${source}-${target}`]: every output edge is a
    rewritten edge, no two output edges share the key, hence none share a
    (source, target) pair; each key of a rewritten edge is represented by the
    last rewritten edge that carries it; and a rewritten edge whose endpoints
    contain no ["-"] has a representative with the same pair. *)
Theorem passthrough_or_dedup_by_key :
  forall (enable : bool) (thr : Z) (nt ex : JSSet.t) (data : GraphData),
    ((enable = false \/ (Z.of_nat (length (nodes data)) < thr)%Z) ->
     clusteredData enable thr nt ex data
     = {| cnodes := map Plain (nodes data); cedges := edges data |})
    /\ ((enable = true /\ (thr <= Z.of_nat (length (nodes data)))%Z) ->
        let out := cedges (clusteredData enable thr nt ex data) in
        let rewritten := updatedEdgesOf thr nt ex data in
        (forall e, In e out -> In e rewritten)
        /\ NoDup (map edgeKey out)
        /\ NoDup (map (fun e => (source e, target e)) out)
        /\ (forall e, In e rewritten ->
                      exists e', lastWithKey rewritten (edgeKey e) = Some e'
                                 /\ In e' out /\ edgeKey e' = edgeKey e)
        /\ (forall e, In e rewritten ->
                      noDash (source e) = true -> noDash (target e) = true ->
                      exists e', In e' out
                                 /\ source e' = source e
                                 /\ target e' = target e)).
Proof.
  intros enable thr nt ex data. split.
  - apply clusteredData_passthrough.
  - intros [-> Hpath] out rewritten. subst out.
    rewrite clusteredData_clustering by assumption. cbn [cedges].
    fold rewritten. repeat split.
    + apply uniqueByKey_In.
    + apply uniqueByKey_NoDup.
    + apply uniqueByKey_NoDup_pairs.
    + intros e He. destruct (lastWithKey_Some rewritten e He) as [e' E].
      exists e'. split; [assumption | now apply uniqueByKey_last].
    + intros e He Hs Ht. now apply uniqueByKey_represents_pair.
Qed.

Lemma passthrough_or_dedup_by_key_witness :
  (cedges (clusteredData true 5 allNodeTypes [] parallelEdges)
   = edges parallelEdges)
  /\ (map eid (cedges (clusteredData true 2 allNodeTypes [] parallelEdges))
      = ["y"]
      /\ NoDup (map edgeKey
                    (cedges (clusteredData true 2 allNodeTypes [] parallelEdges)))).
Proof.
  split.
  - rewrite (proj1 (passthrough_or_dedup_by_key true 5 allNodeTypes [] parallelEdges)).
    + reflexivity.
    + right. simpl. lia.
  - split; [vm_compute; reflexivity|].
    apply (proj2 (passthrough_or_dedup_by_key true 2 allNodeTypes [] parallelEdges)).
    split; [reflexivity | simpl; lia].
Defined.

(** ** Expanding a cluster *)

(** On the clustering path, a node of an active type whose cluster id is
    expanded is pushed to [remainingNodes] by both loops. *)
Lemma expanded_node_pushed_twice thr nt ex data n :
  In n (nodes data) ->
  JSSet.has nt (type n) = true ->
  JSSet.has ex (clusterKey (type n)) = true ->
  remainingNodesOf thr nt ex data
  = snd (collapse thr ex (groupByType nt (nodes data)))
    ++ nonClustered nt ex (nodes data)
  /\ In n (snd (collapse thr ex (groupByType nt (nodes data))))
  /\ In n (nonClustered nt ex (nodes data)).
Proof.
  intros Hn Hnt Hex. split; [reflexivity|]. split.
  - apply In_collapse_remaining. repeat split; auto.
    unfold collapsed. cbn [fst snd]. rewrite Hex. apply andb_false_r.
  - apply filter_In. split; [assumption|]. rewrite Hex. apply orb_true_r.
Qed.

(** C2. After a click on the cluster of three exercises, the reducer lists
    every exercise twice; and expanding the id of a group that was not large
    enough to be collapsed doubles its nodes as well. *)
Theorem expanded_cluster_lists_nodes_twice :
  let expanded := handleClusterClick "cluster_exercise" JSSet.empty in
  (map vid (cnodes (clusteredData true 2 ["exercise"] expanded threeExercises))
   = ["e1"; "e2"; "e3"; "e1"; "e2"; "e3"]
   /\ ~ NoDup (map vid (cnodes (clusteredData true 2 ["exercise"] expanded
                                              threeExercises))))
  /\ (length (plainOfType "exercise"
                (cnodes (clusteredData true 2 allNodeTypes JSSet.empty
                                       twoExercises))) = 2
      /\ length (plainOfType "exercise"
                   (cnodes (clusteredData true 2 allNodeTypes expanded
                                          twoExercises))) = 4).
Proof.
  intros expanded. split; split.
  - vm_compute. reflexivity.
  - vm_compute. intros H.
    inversion H as [|? ? Hnotin _]. apply Hnotin. simpl. auto.
  - vm_compute. reflexivity.
  - vm_compute. reflexivity.
Qed.

(** ** No dangling edges *)

(** C1. With the equipment type switched off, the filter drops node C but
    keeps the edge from B to C: the type filter prunes the edges by their own
    type only. The edge is handed to the simulation with a missing target. *)
Theorem type_filter_leaves_dangling_edge {js : Builtins} :
  let out := simulated defaultProps JSSet.empty withoutEquipment scenarioGraph in
  map vid (fst out) = ["A"; "B"]
  /\ snd out = [mkEdge "e1" "A" "B" "treats"; mkEdge "e2" "B" "C" "requires"]
  /\ dangling out (mkEdge "e2" "B" "C" "requires").
Proof.
  intros out. split; [|split].
  - vm_compute. reflexivity.
  - vm_compute. reflexivity.
  - split.
    + vm_compute. auto.
    + right. vm_compute. intros [H|[H|[]]]; discriminate.
Qed.

(** The sibling component [D3ForceGraph] does validate its links: every link
    it builds has both endpoints among its nodes. *)
Lemma validLinks_no_dangling ns es l :
  In l (ForceGraph.validLinks ns es) ->
  In (ForceGraph.lsource l) (map ForceGraph.nid ns)
  /\ In (ForceGraph.ltarget l) (map ForceGraph.nid ns).
Proof.
  unfold ForceGraph.validLinks. intros H.
  apply in_map_iff in H. destruct H as [e [<- H]].
  apply filter_In in H. destruct H as [_ H].
  apply andb_true_iff in H. destruct H as [Hs Ht].
  apply has_In in Hs. apply -> In_of_list in Hs.
  apply has_In in Ht. apply -> In_of_list in Ht.
  simpl. split; assumption.
Qed.

(** ** Level of detail *)

(** C4, as stated, fails at the boundary: at zoom 0.7 the nodes are drawn as
    dots. *)
Lemma full_detail_at_threshold_counterexample :
  ~ (forall z : Q, (7 # 10 <= z)%Q -> detailTier z = FullDetail).
Proof.
  intros H. specialize (H (7 # 10)%Q (Qle_refl _)). vm_compute in H. discriminate.
Qed.

Lemma detailTier_full z : detailTier z = FullDetail <-> (7 # 10 < z)%Q.
Proof.
  unfold detailTier. destruct (Qle_bool z (7 # 10)) eqn:E; simpl.
  - apply Qle_bool_iff in E. split; [discriminate|].
    intros H. exfalso. apply (Qlt_not_le _ _ H E).
  - split; [|reflexivity]. intros _. apply Qnot_le_lt. intros H.
    apply Qle_bool_iff in H. congruence.
Qed.

Lemma detailTier_reduced z : detailTier z = ReducedDetail <-> (z <= 7 # 10)%Q.
Proof.
  unfold detailTier. destruct (Qle_bool z (7 # 10)) eqn:E; simpl.
  - apply Qle_bool_iff in E. tauto.
  - split; [discriminate|]. intros H. apply Qle_bool_iff in H. congruence.
Qed.

Lemma detailTier_Qeq z z' : (z == z')%Q -> detailTier z = detailTier z'.
Proof.
  intros E. destruct (detailTier z') eqn:E'.
  - apply detailTier_full. apply detailTier_full in E'. now rewrite E.
  - apply detailTier_reduced. apply detailTier_reduced in E'. now rewrite E.
Qed.

(** C4, amended. The tier is a function of the zoom factor alone, with a
    strict comparison: above 0.7 every node is a circle sized and coloured by
    its type with a label; at 0.7 and below every node is a small dot (radius
    4, or 8 for a cluster) without label. Equal zoom factors give the same
    tier and the same drawing. *)
Theorem detail_tier_is_strict_function_of_zoom {js : Builtins} :
  forall z : Q,
    ((7 # 10 < z)%Q ->
     detailTier z = FullDetail
     /\ forall d, renderNode z d
                  = CircleWithLabel (radiusOf d) (fillOf d) (textOf d))
    /\ ((z <= 7 # 10)%Q ->
        detailTier z = ReducedDetail
        /\ forall d, renderNode z d
                     = Dot (if isClusterNode d then 8%Q else 4%Q) (fillOf d))
    /\ (forall z' : Q, (z == z')%Q ->
                       detailTier z = detailTier z'
                       /\ forall d, renderNode z d = renderNode z' d).
Proof.
  intros z. split; [|split].
  - intros H. apply detailTier_full in H. split; [assumption|].
    intros d. unfold renderNode. now rewrite H.
  - intros H. apply detailTier_reduced in H. split; [assumption|].
    intros d. unfold renderNode. now rewrite H.
  - intros z' E. apply detailTier_Qeq in E. split; [assumption|].
    intros d. unfold renderNode. now rewrite E.
Qed.

Lemma detail_tier_is_strict_function_of_zoom_witness :
  detailTier 1%Q = FullDetail
  /\ detailTier (1 # 2)%Q = ReducedDetail
  /\ detailTier (2 # 4)%Q = detailTier (1 # 2)%Q.
Proof.
  split; [|split].
  - apply (proj1 (detail_tier_is_strict_function_of_zoom
                    (js := asciiBuiltins) 1%Q)).
    reflexivity.
  - apply (proj1 (proj2 (detail_tier_is_strict_function_of_zoom
                           (js := asciiBuiltins) (1 # 2)%Q))).
    discriminate.
  - apply (proj2 (proj2 (detail_tier_is_strict_function_of_zoom
                           (js := asciiBuiltins) (2 # 4)%Q))).
    reflexivity.
Defined.

(** ** Selection *)

(** C9. A selection without the multi flag empties both sets first: after
    [selectNode] the node set holds exactly the given id and the edge set is
    empty; after [selectEdge] the edge set holds exactly the given id and the
    node set is empty. Either is a [clearSelection] followed by the same
    selection with the multi flag. *)
Theorem single_select_replaces_both_sets :
  forall (x : string) (s : Store.SelectionState),
    (Store.selectedNodeIds (Store.selectNode x false s) = [x]
     /\ Store.selectedEdgeIds (Store.selectNode x false s) = []
     /\ (forall y, JSSet.has (Store.selectedNodeIds (Store.selectNode x false s)) y
                   = true <-> y = x)
     /\ (forall y, JSSet.has (Store.selectedEdgeIds (Store.selectNode x false s)) y
                   = false)
     /\ Store.selectNode x false s
        = Store.selectNode x true (Store.clearSelection s))
    /\ (Store.selectedEdgeIds (Store.selectEdge x false s) = [x]
        /\ Store.selectedNodeIds (Store.selectEdge x false s) = []
        /\ (forall y, JSSet.has (Store.selectedEdgeIds (Store.selectEdge x false s)) y
                      = true <-> y = x)
        /\ (forall y, JSSet.has (Store.selectedNodeIds (Store.selectEdge x false s)) y
                      = false)
        /\ Store.selectEdge x false s
           = Store.selectEdge x true (Store.clearSelection s)).
Proof.
  intros x s.
  assert (Hone : forall y, JSSet.has [x] y = true <-> y = x).
  { intros y. rewrite has_In. simpl. intuition congruence. }
  repeat split; try reflexivity; try apply Hone.
Qed.

(** ** The reducer reads its sets through [has] only *)

Lemma fold_left_pointwise {A B : Type} (f g : A -> B -> A) (l : list B) (a : A) :
  (forall a b, f a b = g a b) -> fold_left f l a = fold_left g l a.
Proof.
  intros H. revert a. induction l as [|b l IH]; intros a; simpl; [reflexivity|].
  now rewrite H, IH.
Qed.

Section SameMembers.
Variables (nt nt' ex ex' : JSSet.t).
Hypothesis Hnt : JSSet.same_members nt nt'.
Hypothesis Hex : JSSet.same_members ex ex'.

Lemma groupByType_same_members ns : groupByType nt ns = groupByType nt' ns.
Proof.
  unfold groupByType. apply fold_left_pointwise.
  intros m n. unfold groupStep. now rewrite Hnt.
Qed.

Lemma collapse_same_members thr m : collapse thr ex m = collapse thr ex' m.
Proof.
  unfold collapse. apply fold_left_pointwise.
  intros [cs rs] [k g]. unfold collapseStep. now rewrite Hex.
Qed.

Lemma nonClustered_same_members ns :
  nonClustered nt ex ns = nonClustered nt' ex' ns.
Proof.
  unfold nonClustered. apply filter_ext. intros n. now rewrite Hnt, Hex.
Qed.

Lemma clusterNodesOf_same_members thr data :
  clusterNodesOf thr nt ex data = clusterNodesOf thr nt' ex' data.
Proof.
  unfold clusterNodesOf.
  now rewrite groupByType_same_members, collapse_same_members.
Qed.

Lemma remainingNodesOf_same_members thr data :
  remainingNodesOf thr nt ex data = remainingNodesOf thr nt' ex' data.
Proof.
  unfold remainingNodesOf.
  now rewrite groupByType_same_members, collapse_same_members,
    nonClustered_same_members.
Qed.

Lemma clusteredData_same_members enable thr data :
  clusteredData enable thr nt ex data = clusteredData enable thr nt' ex' data.
Proof.
  unfold clusteredData.
  now rewrite groupByType_same_members, collapse_same_members,
    nonClustered_same_members.
Qed.

End SameMembers.

(** C7. The reducer is a function of its inputs, and of the two sets it
    depends only through their members: two runs on the same data, the same
    threshold, and node-type and expanded-cluster sets with the same members
    (in whatever order they were inserted) return the same cluster nodes with
    the same children, the same remaining nodes and the same edge list. *)
Theorem clusteredData_deterministic :
  forall (enable : bool) (thr : Z) (nt nt' ex ex' : JSSet.t) (data : GraphData),
    JSSet.same_members nt nt' ->
    JSSet.same_members ex ex' ->
    clusteredData enable thr nt ex data = clusteredData enable thr nt' ex' data
    /\ clusterNodesOf thr nt ex data = clusterNodesOf thr nt' ex' data
    /\ remainingNodesOf thr nt ex data = remainingNodesOf thr nt' ex' data
    /\ updatedEdgesOf thr nt ex data = updatedEdgesOf thr nt' ex' data.
Proof.
  intros enable thr nt nt' ex ex' data Hnt Hex. repeat split.
  - now apply clusteredData_same_members.
  - now apply clusterNodesOf_same_members.
  - now apply remainingNodesOf_same_members.
  - unfold updatedEdgesOf.
    now rewrite (clusterNodesOf_same_members nt nt' ex ex' Hnt Hex).
Qed.

Lemma clusteredData_deterministic_witness :
  clusteredData true 2 ["exercise"; "condition"]
                ["cluster_exercise"; "cluster_metric"] threeExercises
  = clusteredData true 2 ["condition"; "exercise"]
                  ["cluster_metric"; "cluster_exercise"] threeExercises.
Proof.
  apply (clusteredData_deterministic
           true 2 ["exercise"; "condition"] ["condition"; "exercise"]
           ["cluster_exercise"; "cluster_metric"]
           ["cluster_metric"; "cluster_exercise"] threeExercises).
  - intros x. unfold JSSet.has. simpl.
    destruct (String.eqb x "exercise"), (String.eqb x "condition"); reflexivity.
  - intros x. unfold JSSet.has. simpl.
    destruct (String.eqb x "cluster_exercise"), (String.eqb x "cluster_metric");
      reflexivity.
Defined.

(** ** Empty results *)

Lemma slice0_nil {A : Type} (z : Z) : slice0 (@nil A) z = [].
Proof. unfold slice0. apply firstn_nil. Qed.

Lemma after_search_nil nt et mode max z imp :
  lodCull z imp (importanceCap mode max imp (typeFilter nt et ([], []))) = ([], []).
Proof.
  unfold typeFilter, importanceCap, lodCull. cbn [filter length].
  destruct (isImportant mode && (max <? Z.of_nat 0)%Z);
    destruct (negb (Qle_bool (1 # 2) z)); reflexivity.
Qed.

Lemma searchFilter_no_match {js : Builtins} q ns es :
  truthy q = true ->
  (forall v, In v ns -> labelMatches q v = false) ->
  searchFilter q (ns, es) = ([], []).
Proof.
  intros Hq Hnone. unfold searchFilter. rewrite Hq.
  rewrite (filter_none (labelMatches q) ns Hnone). cbn [map JSSet.of_list fold_left].
  f_equal; apply filter_none; reflexivity.
Qed.

Lemma searchFilter_nil {js : Builtins} q : searchFilter q ([], []) = ([], []).
Proof.
  unfold searchFilter. now destruct (truthy q).
Qed.

Lemma clusteredData_empty enable thr nt ex :
  clusteredData enable thr nt ex {| nodes := []; edges := [] |}
  = {| cnodes := []; cedges := [] |}.
Proof.
  unfold clusteredData. cbn [nodes edges length].
  destruct (negb enable || (Z.of_nat 0 <? thr)%Z); reflexivity.
Qed.

(** X26. A non-empty search query that matches the label of none of the nodes
    entering the Visibility Filter makes it return no node and no edge,
    whatever the rest of the filter state; and the empty graph goes through
    the whole pipeline to an empty node array and an empty edge array. *)
Theorem no_match_gives_empty_result {js : Builtins} :
  (forall (f : FilterState) (imp : JSMap.t nat) (c : Clustered),
      truthy (searchQuery f) = true ->
      (forall v, In v (cnodes c) -> labelMatches (searchQuery f) v = false) ->
      visibleData f imp c = ([], []))
  /\ (forall (p : Props) (ex : JSSet.t) (f : FilterState),
         simulated p ex f {| nodes := []; edges := [] |} = ([], [])).
Proof.
  split.
  - intros f imp c Hq Hnone. unfold visibleData.
    rewrite searchFilter_no_match by assumption. apply after_search_nil.
  - intros p ex f. unfold simulated, visibleData.
    rewrite clusteredData_empty. cbn [cnodes cedges].
    rewrite searchFilter_nil. apply after_search_nil.
Qed.

Lemma no_match_gives_empty_result_witness :
  visibleData (js := asciiBuiltins)
    {| searchQuery := "yoga"; nodeTypes := allNodeTypes;
       edgeTypes := allEdgeTypes; visibilityMode := ModeImportant;
       maxVisibleNodes := 100; zoomLevel := 1%Q |}
    (nodeImportance scenarioGraph)
    (clusteredData true 10 allNodeTypes [] scenarioGraph)
  = ([], []).
Proof.
  apply (proj1 (no_match_gives_empty_result (js := asciiBuiltins))).
  - reflexivity.
  - intros v H. vm_compute in H.
    destruct H as [<-|[<-|[<-|[]]]]; vm_compute; reflexivity.
Defined.

(** C8. On the graph of one node "A" and one edge from "A" to "ghost", an id
    that no node carries, with the component's default props and filter
    state, the Visibility Filter hands the node and the edge, still dangling,
    to the simulation set-up, and [render] of [GraphCanvasOptimized] ends as
    the set-up ends on these arrays: what the set-up throws leaves [render].
    On the same graph [D3ForceGraph.initializeGraph] hands the set-up no link
    at all and returns whatever the set-up does. *)
Theorem dangling_edge_reaches_unguarded_setup {js : Builtins} :
  simulated defaultProps [] defaultFilter ghostGraph
  = ([Plain (mkNode "A" "Knee pain" "condition")],
     [mkEdge "e1" "A" "ghost" "treats"])
  /\ dangling (simulated defaultProps [] defaultFilter ghostGraph)
              (mkEdge "e1" "A" "ghost" "treats")
  /\ (forall (Simulation Error : Type)
             (forceSimulation : list VNode -> list EdgeData ->
                                ForceGraph.Result Error Simulation),
         render Simulation Error forceSimulation defaultProps [] defaultFilter
                ghostGraph
         = match forceSimulation [Plain (mkNode "A" "Knee pain" "condition")]
                                 [mkEdge "e1" "A" "ghost" "treats"] with
           | ForceGraph.Returns sim =>
               ForceGraph.Returns
                 ([Plain (mkNode "A" "Knee pain" "condition")],
                  [mkEdge "e1" "A" "ghost" "treats"], sim)
           | ForceGraph.Throws e => ForceGraph.Throws e
           end)
  /\ ForceGraph.validLinks (ForceGraph.toD3Nodes ghostGraph) (edges ghostGraph)
     = []
  /\ (forall (Simulation Error : Type)
             (forceSimulation : list ForceGraph.D3Node -> list ForceGraph.D3Link ->
                                ForceGraph.Result Error Simulation),
         exists canvas,
           ForceGraph.initializeGraph Simulation Error forceSimulation ghostGraph
           = ForceGraph.Returns canvas).
Proof.
  assert (E : simulated defaultProps [] defaultFilter ghostGraph
              = ([Plain (mkNode "A" "Knee pain" "condition")],
                 [mkEdge "e1" "A" "ghost" "treats"]))
    by (vm_compute; reflexivity).
  split; [exact E|]. split; [|split; [|split]].
  - rewrite E. split; [now left|]. right. cbn [fst map vid id].
    intros [H|[]]. discriminate H.
  - intros Simulation Error forceSimulation. unfold render. rewrite E.
    reflexivity.
  - vm_compute. reflexivity.
  - intros Simulation Error forceSimulation.
    unfold ForceGraph.initializeGraph.
    destruct (forceSimulation _ _); simpl; eauto.
Qed.

(** ** The importance cap *)

Lemma insertByImportance_perm imp x l :
  Permutation (insertByImportance imp x l) (x :: l).
Proof.
  induction l as [|y l IH]; simpl; [reflexivity|].
  destruct (importanceOf imp (vid y) <=? importanceOf imp (vid x)).
  - reflexivity.
  - rewrite IH. apply perm_swap.
Qed.

Lemma sortByImportance_perm imp l : Permutation (sortByImportance imp l) l.
Proof.
  induction l as [|x l IH]; simpl; [reflexivity|].
  rewrite insertByImportance_perm. now apply perm_skip.
Qed.

Lemma insertByImportance_descending imp x l :
  descending imp l -> descending imp (insertByImportance imp x l).
Proof.
  unfold descending. induction l as [|y l IH]; simpl; intros H.
  - repeat constructor.
  - apply StronglySorted_inv in H. destruct H as [Hl Hy].
    destruct (Nat.leb_spec (importanceOf imp (vid y)) (importanceOf imp (vid x)))
      as [Hle|Hlt].
    + constructor; [now constructor|].
      constructor; [exact Hle|].
      apply Forall_forall. intros b Hb.
      rewrite Forall_forall in Hy. specialize (Hy b Hb).
      unfold weight in *. lia.
    + constructor; [now apply IH|].
      apply (Permutation_Forall (Permutation_sym (insertByImportance_perm imp x l))).
      constructor; [unfold weight; lia | assumption].
Qed.

Lemma sortByImportance_descending imp l : descending imp (sortByImportance imp l).
Proof.
  induction l as [|x l IH]; simpl.
  - constructor.
  - now apply insertByImportance_descending.
Qed.

Lemma descending_app imp l1 l2 a b :
  descending imp (l1 ++ l2) -> In a l1 -> In b l2 -> weight imp b <= weight imp a.
Proof.
  unfold descending. induction l1 as [|x l1 IH]; simpl; intros H Ha Hb.
  - contradiction.
  - apply StronglySorted_inv in H. destruct H as [Hl Hx].
    destruct Ha as [->|Ha].
    + rewrite Forall_forall in Hx. apply Hx. apply in_or_app. now right.
    + now apply IH.
Qed.

Lemma slice0_firstn {A : Type} (l : list A) (z : Z) :
  (0 <= z <= Z.of_nat (length l))%Z -> slice0 l z = firstn (Z.to_nat z) l.
Proof.
  intros H. unfold slice0.
  destruct (Z.ltb_spec z 0); [lia|]. f_equal. lia.
Qed.

Lemma unique_vid (l : list VNode) n n' :
  NoDup (map vid l) -> In n l -> In n' l -> vid n = vid n' -> n = n'.
Proof.
  induction l as [|a l IH]; simpl; intros Hnd Hn Hn' E; [contradiction|].
  inversion Hnd as [|? ? Hnotin Hnd']; subst.
  destruct Hn as [->|Hn], Hn' as [->|Hn']; auto.
  - exfalso. apply Hnotin. rewrite E. now apply in_map.
  - exfalso. apply Hnotin. rewrite <- E. now apply in_map.
Qed.

Lemma importanceCap_below mode max imp ns es :
  (Z.of_nat (length ns) <= max)%Z ->
  importanceCap mode max imp (ns, es) = (ns, es).
Proof.
  intros H. unfold importanceCap. apply Z.ltb_ge in H. rewrite H.
  now rewrite andb_false_r.
Qed.

Lemma importanceCap_above max imp ns es :
  (max < Z.of_nat (length ns))%Z ->
  importanceCap ModeImportant max imp (ns, es) =
  (filter (fun node => JSSet.has (JSSet.of_list (map vid (topRanked max imp ns)))
                                 (vid node)) ns,
   filter (bothIn (JSSet.of_list (map vid (topRanked max imp ns)))) es).
Proof.
  intros H. unfold importanceCap. apply Z.ltb_lt in H. now rewrite H.
Qed.

Section Cap.
Variables (max : Z) (imp : JSMap.t nat) (ns : list VNode) (es : list EdgeData).
Hypothesis Hmax : (0 <= max < Z.of_nat (length ns))%Z.
Hypothesis Hunique : NoDup (map vid ns).

Let sorted := sortByImportance imp ns.
Let top := topRanked max imp ns.
Let kept := fst (importanceCap ModeImportant max imp (ns, es)).
Let keptEdges := snd (importanceCap ModeImportant max imp (ns, es)).

Lemma sorted_length : length sorted = length ns.
Proof. apply Permutation_length, sortByImportance_perm. Qed.

Lemma top_firstn : top = firstn (Z.to_nat max) sorted.
Proof.
  unfold top, topRanked. apply slice0_firstn. fold sorted.
  rewrite sorted_length. lia.
Qed.

Lemma sorted_split : sorted = top ++ skipn (Z.to_nat max) sorted.
Proof. rewrite top_firstn. symmetry. apply firstn_skipn. Qed.

Lemma top_length : length top = Z.to_nat max.
Proof.
  rewrite top_firstn. apply firstn_length_le. rewrite sorted_length. lia.
Qed.

Lemma In_top_ns n : In n top -> In n ns.
Proof.
  intros H. apply (Permutation_in _ (sortByImportance_perm imp ns)).
  fold sorted. rewrite sorted_split. apply in_or_app. now left.
Qed.

Lemma NoDup_ns : NoDup ns.
Proof. now apply (NoDup_map_inv vid). Qed.

Lemma NoDup_top : NoDup top.
Proof.
  apply (NoDup_app_remove_r _ (skipn (Z.to_nat max) sorted)).
  rewrite <- sorted_split.
  apply (Permutation_NoDup (Permutation_sym (sortByImportance_perm imp ns))).
  apply NoDup_ns.
Qed.

Lemma kept_eq :
  kept = filter (fun node => JSSet.has (JSSet.of_list (map vid top)) (vid node)) ns.
Proof.
  unfold kept. rewrite importanceCap_above by lia. reflexivity.
Qed.

Lemma In_kept n : In n kept <-> In n top.
Proof.
  rewrite kept_eq, filter_In, has_In, In_of_list, in_map_iff.
  split.
  - intros [Hn [n' [E Hn']]].
    assert (n' = n); [|now subst].
    apply (unique_vid ns); auto. now apply In_top_ns.
  - intros H. split; [now apply In_top_ns | now exists n].
Qed.

Lemma kept_length : length kept = Z.to_nat max.
Proof.
  rewrite <- top_length. apply Permutation_length.
  apply NoDup_Permutation.
  - rewrite kept_eq. apply NoDup_filter, NoDup_ns.
  - apply NoDup_top.
  - apply In_kept.
Qed.

Lemma kept_outrank_pruned n m :
  In n kept -> In m ns -> ~ In m kept -> weight imp m <= weight imp n.
Proof.
  intros Hn Hm Hnot. apply In_kept in Hn.
  apply (descending_app imp top (skipn (Z.to_nat max) sorted)); [|assumption|].
  - rewrite <- sorted_split. apply sortByImportance_descending.
  - assert (Hs : In m sorted)
      by (apply (Permutation_in _ (Permutation_sym (sortByImportance_perm imp ns)));
          assumption).
    rewrite sorted_split in Hs. apply in_app_or in Hs.
    destruct Hs as [Hs|Hs]; [|assumption].
    exfalso. apply Hnot. now apply In_kept.
Qed.

Lemma In_keptEdges e :
  In e keptEdges <->
  In e es /\ In (source e) (map vid kept) /\ In (target e) (map vid kept).
Proof.
  assert (Hids : forall x, In x (map vid kept) <-> In x (map vid top)).
  { intros x. rewrite !in_map_iff. split; intros [n [E Hn]]; exists n;
      (split; [assumption | now apply In_kept]). }
  unfold keptEdges. rewrite importanceCap_above by lia. cbn [snd].
  fold top. rewrite filter_In. unfold bothIn.
  rewrite andb_true_iff, !has_In, !In_of_list, !Hids. tauto.
Qed.

End Cap.

(** The weight of an id is its degree when a node of the data carries the
    id, and 0 otherwise (so also for the id of a cluster node). *)
Lemma importanceOf_nodeImportance d x :
  importanceOf (nodeImportance d) x =
  if JSSet.has (map id (nodes d)) x then degree (edges d) x else 0.
Proof.
  unfold importanceOf, nodeImportance.
  rewrite (fold_set_get id (fun n => degree (edges d) (id n))). simpl.
  destruct (find (fun a => String.eqb (id a) x) (rev (nodes d))) as [a|] eqn:E.
  - apply find_some in E. destruct E as [Ha E]. apply String.eqb_eq in E.
    apply in_rev in Ha.
    replace (JSSet.has (map id (nodes d)) x) with true; [now rewrite E|].
    symmetry. apply has_In. rewrite <- E. now apply in_map.
  - destruct (JSSet.has (map id (nodes d)) x) eqn:Hhas; [|reflexivity].
    apply has_In, in_map_iff in Hhas. destruct Hhas as [n [En Hn]].
    apply in_rev in Hn. assert (X := find_none _ _ E n Hn). simpl in X.
    rewrite En, String.eqb_refl in X. discriminate.
Qed.

(** C6. With a cap of one node, two nodes are kept. After a click on the
    cluster of three exercises the reducer lists every exercise twice; the
    cap ranks the six entries, takes the id of the first, and keeps every
    entry with that id: both copies of "e1". Likewise, a node of the data
    whose id is the id of the cluster of exercises is kept together with
    that cluster. *)
Theorem cap_keeps_more_than_max {js : Builtins} :
  (let expanded := handleClusterClick "cluster_exercise" [] in
   let p := {| enableClustering := true; clusterThreshold := 2 |} in
   map vid (cnodes (clusteredData true 2 allNodeTypes expanded threeExercises))
   = ["e1"; "e2"; "e3"; "e1"; "e2"; "e3"]
   /\ maxVisibleNodes capAtOne = 1%Z
   /\ map vid (fst (simulated p expanded capAtOne threeExercises))
      = ["e1"; "e1"])
  /\ (let p := {| enableClustering := true; clusterThreshold := 2 |} in
      map vid (cnodes (clusteredData true 2 allNodeTypes [] collidingIds))
      = ["cluster_exercise"; "cluster_exercise"]
      /\ map vid (fst (simulated p [] capAtOne collidingIds))
         = ["cluster_exercise"; "cluster_exercise"]).
Proof.
  split; cbn zeta.
  - split; [|split]; vm_compute; reflexivity.
  - split; vm_compute; reflexivity.
Qed.

(** X27. In 'important' mode a node list no longer than
    [maxVisibleNodes] passes the cap unchanged, with its edges. A longer list
    is cut to the nodes whose id is among the ids of the first
    [maxVisibleNodes] nodes in decreasing order of weight; when the ids in
    the list are pairwise distinct and [maxVisibleNodes] is not negative,
    these are exactly [maxVisibleNodes] nodes of the list, each of weight at
    least that of every pruned node, and the edges kept are exactly those
    with both endpoints among the kept nodes. The weight of a node of the
    data is its degree. *)
Theorem importance_cap_keeps_top_ranked :
  forall (max : Z) (imp : JSMap.t nat) (ns : list VNode) (es : list EdgeData),
    ((Z.of_nat (length ns) <= max)%Z ->
     importanceCap ModeImportant max imp (ns, es) = (ns, es))
    /\ ((max < Z.of_nat (length ns))%Z ->
        descending imp (sortByImportance imp ns)
        /\ Permutation (sortByImportance imp ns) ns
        /\ forall n,
            In n (fst (importanceCap ModeImportant max imp (ns, es))) <->
            In n ns /\ In (vid n) (map vid (topRanked max imp ns)))
    /\ ((0 <= max < Z.of_nat (length ns))%Z ->
        NoDup (map vid ns) ->
        let kept := fst (importanceCap ModeImportant max imp (ns, es)) in
        let keptEdges := snd (importanceCap ModeImportant max imp (ns, es)) in
        length kept = Z.to_nat max
        /\ (forall n, In n kept <-> In n (topRanked max imp ns))
        /\ (forall n, In n kept -> In n ns)
        /\ (forall n m, In n kept -> In m ns -> ~ In m kept ->
                        weight imp m <= weight imp n)
        /\ (forall e, In e keptEdges <->
                      In e es /\ In (source e) (map vid kept)
                      /\ In (target e) (map vid kept)))
    /\ (forall (d : GraphData) (n : NodeData),
           In n (nodes d) ->
           importanceOf (nodeImportance d) (id n) = degree (edges d) (id n)).
Proof.
  intros max imp ns es. split; [|split; [|split]].
  - apply importanceCap_below.
  - intros Hmax. split; [|split].
    + apply sortByImportance_descending.
    + apply sortByImportance_perm.
    + intros n. rewrite importanceCap_above by assumption. cbn [fst].
      now rewrite filter_In, has_In, In_of_list.
  - intros Hmax Hunique kept keptEdges.
    split; [|split; [|split; [|split]]].
    + now apply kept_length.
    + intros n. now apply In_kept.
    + intros n H. apply (In_top_ns max imp ns Hmax).
      now apply (In_kept max imp ns es Hmax Hunique).
    + intros n m. now apply kept_outrank_pruned.
    + intros e. now apply In_keptEdges.
  - intros d n Hn. rewrite importanceOf_nodeImportance.
    replace (JSSet.has (map id (nodes d)) (id n)) with true; [reflexivity|].
    symmetry. apply has_In. now apply in_map.
Qed.

Lemma importance_cap_keeps_top_ranked_witness :
  length (fst (importanceCap ModeImportant 2 (nodeImportance scenarioGraph)
                             (map Plain (nodes scenarioGraph),
                              edges scenarioGraph))) = 2.
Proof.
  apply (proj1 (proj2 (proj2 (importance_cap_keeps_top_ranked
                                2 (nodeImportance scenarioGraph)
                                (map Plain (nodes scenarioGraph))
                                (edges scenarioGraph))))).
  - simpl. lia.
  - simpl. repeat constructor; simpl; intuition discriminate.
Defined.

(** * Further properties *)

(** ** The undo history *)

Lemma filter_all {A : Type} (f : A -> bool) (l : list A) :
  (forall x, In x l -> f x = true) -> filter f l = l.
Proof.
  induction l as [|a l IH]; simpl; intros H; [reflexivity|].
  rewrite (H a (or_introl eq_refl)). f_equal. apply IH. auto.
Qed.

Lemma saveToHistory_cases s :
  historyOk s ->
  (GraphStore.historyIndex s + 2 <= 50
   /\ GraphStore.saveToHistory s
      = GraphStore.withHistory s (GraphStore.data s)
          (firstn (GraphStore.historyIndex s + 1) (GraphStore.history s)
           ++ [GraphStore.data s])
          (GraphStore.historyIndex s + 1))
  \/ (GraphStore.historyIndex s = 49
      /\ length (GraphStore.history s) = 50
      /\ GraphStore.saveToHistory s
         = GraphStore.withHistory s (GraphStore.data s)
             (tl (GraphStore.history s) ++ [GraphStore.data s]) 49).
Proof.
  intros [Hi Hlen]. unfold GraphStore.saveToHistory.
  assert (Hfl : length (firstn (GraphStore.historyIndex s + 1) (GraphStore.history s))
                = GraphStore.historyIndex s + 1)
    by (apply firstn_length_le; lia).
  rewrite length_app, Hfl. cbn [length].
  destruct (Nat.ltb_spec 50 (GraphStore.historyIndex s + 1 + 1)) as [Hbig|Hsmall].
  - right. assert (Ei : GraphStore.historyIndex s = 49) by lia.
    assert (El : length (GraphStore.history s) = 50) by lia.
    repeat split; try assumption. rewrite Ei. cbn [Nat.add].
    rewrite firstn_all2 by lia.
    destruct (GraphStore.history s); [discriminate | reflexivity].
  - left. split; [lia | reflexivity].
Qed.

Lemma saveToHistory_ok s : historyOk s -> historyOk (GraphStore.saveToHistory s).
Proof.
  intros H. destruct (saveToHistory_cases s H) as [[Hi E]|[Hi [Hl E]]];
    rewrite E; destruct H as [H1 H2]; unfold historyOk;
    cbn [GraphStore.historyIndex GraphStore.history GraphStore.withHistory].
  - rewrite length_app, firstn_length_le by lia. simpl. lia.
  - rewrite length_app. destruct (GraphStore.history s); simpl in *; lia.
Qed.

Lemma restore_ok s i :
  i < length (GraphStore.history s) ->
  exists d, nth_error (GraphStore.history s) i = Some d
            /\ GraphStore.restore s i
               = Some (GraphStore.withHistory s d (GraphStore.history s) i).
Proof.
  intros H. unfold GraphStore.restore.
  destruct (nth_error (GraphStore.history s) i) as [d|] eqn:E.
  - eauto.
  - apply nth_error_None in E. lia.
Qed.

(** X1. While the history index points into a history of at most 50
    entries, [saveToHistory], [undo] and [redo] keep it so, [undo] and [redo]
    never read outside the history (they do not throw) and leave the
    recorded snapshots as they are; [setGraphData] re-establishes the
    invariant from any state. *)
Theorem history_stays_bounded :
  forall s : GraphStore.State,
    historyOk s ->
    historyOk (GraphStore.saveToHistory s)
    /\ (exists s', GraphStore.undo s = Some s' /\ historyOk s'
                   /\ GraphStore.history s' = GraphStore.history s
                   /\ GraphStore.historyIndex s' = GraphStore.historyIndex s - 1)
    /\ (exists s', GraphStore.redo s = Some s' /\ historyOk s'
                   /\ GraphStore.history s' = GraphStore.history s)
    /\ (forall d, historyOk (GraphStore.setGraphData d s)).
Proof.
  intros s H. split; [now apply saveToHistory_ok|]. destruct H as [Hi Hlen].
  split; [|split].
  - unfold GraphStore.undo.
    destruct (Nat.ltb_spec 0 (GraphStore.historyIndex s)) as [Hpos|Hzero].
    + destruct (restore_ok s (GraphStore.historyIndex s - 1)) as [d [_ E]]; [lia|].
      rewrite E. eexists. split; [reflexivity|]. unfold historyOk.
      cbn [GraphStore.historyIndex GraphStore.history GraphStore.withHistory].
      repeat split; lia.
    + exists s. unfold historyOk. repeat split; lia.
  - unfold GraphStore.redo, GraphStore.canRedo.
    destruct (Nat.ltb_spec (GraphStore.historyIndex s + 1)
                           (length (GraphStore.history s))) as [Hmore|Hlast].
    + destruct (restore_ok s (GraphStore.historyIndex s + 1)) as [d [_ E]]; [lia|].
      rewrite E. eexists. split; [reflexivity|]. unfold historyOk.
      cbn [GraphStore.historyIndex GraphStore.history GraphStore.withHistory].
      repeat split; lia.
    + exists s. unfold historyOk. repeat split; lia.
  - intros d. unfold historyOk. cbn. lia.
Qed.

Lemma history_stays_bounded_witness :
  historyOk (GraphStore.saveToHistory sampleState).
Proof.
  apply (history_stays_bounded sampleState).
  unfold historyOk. simpl. lia.
Defined.

Ltac store_fields :=
  cbn [GraphStore.historyIndex GraphStore.history GraphStore.data
       GraphStore.selection GraphStore.isDirty GraphStore.withHistory
       GraphStore.withData GraphStore.withSelection].

(** X2. After [saveToHistory] the current data is the entry under the index
    and the last entry, so nothing can be redone; an [undo] then brings back
    the snapshot that was under the index before the save (also when the
    oldest entry was dropped at the limit of 50), and a [redo] after it
    brings back the saved data. *)
Theorem save_undo_redo :
  forall (s : GraphStore.State) (d0 : GraphData),
    historyOk s ->
    nth_error (GraphStore.history s) (GraphStore.historyIndex s) = Some d0 ->
    let s1 := GraphStore.saveToHistory s in
    GraphStore.data s1 = GraphStore.data s
    /\ nth_error (GraphStore.history s1) (GraphStore.historyIndex s1)
       = Some (GraphStore.data s)
    /\ GraphStore.canRedo s1 = false
    /\ exists s2 s3,
        GraphStore.undo s1 = Some s2
        /\ GraphStore.data s2 = d0
        /\ GraphStore.redo s2 = Some s3
        /\ GraphStore.data s3 = GraphStore.data s
        /\ GraphStore.historyIndex s3 = GraphStore.historyIndex s1.
Proof.
  intros s d0 H Hd0 s1. subst s1.
  destruct (saveToHistory_cases s H) as [[Hi E]|[Hi [Hl E]]]; rewrite E;
    destruct H as [H1 H2].
  - set (i := GraphStore.historyIndex s) in *.
    set (h1 := firstn (i + 1) (GraphStore.history s) ++ [GraphStore.data s]).
    assert (Hfl : length (firstn (i + 1) (GraphStore.history s)) = i + 1)
      by (apply firstn_length_le; lia).
    assert (Hlen1 : length h1 = i + 2)
      by (unfold h1; rewrite length_app, Hfl; simpl; lia).
    assert (Hlast : nth_error h1 (i + 1) = Some (GraphStore.data s)).
    { unfold h1. rewrite nth_error_app2 by lia. rewrite Hfl, Nat.sub_diag.
      reflexivity. }
    assert (Hprev : nth_error h1 i = Some d0).
    { unfold h1. rewrite nth_error_app1 by lia. rewrite nth_error_firstn.
      destruct (Nat.ltb_spec i (i + 1)); [assumption | lia]. }
    store_fields. split; [reflexivity|]. split; [exact Hlast|]. split.
    { unfold GraphStore.canRedo. store_fields. apply Nat.ltb_ge. lia. }
    exists (GraphStore.withHistory
              (GraphStore.withHistory s (GraphStore.data s) h1 (i + 1)) d0 h1 i).
    exists (GraphStore.withHistory
              (GraphStore.withHistory
                 (GraphStore.withHistory s (GraphStore.data s) h1 (i + 1)) d0 h1 i)
              (GraphStore.data s) h1 (i + 1)).
    split; [|split; [reflexivity|split; [|split; reflexivity]]].
    + unfold GraphStore.undo, GraphStore.restore. store_fields.
      destruct (Nat.ltb_spec 0 (i + 1)); [|lia].
      replace (i + 1 - 1) with i by lia. now rewrite Hprev.
    + unfold GraphStore.redo, GraphStore.canRedo, GraphStore.restore. store_fields.
      destruct (Nat.ltb_spec (i + 1) (length h1)); [|lia].
      now rewrite Hlast.
  - destruct (GraphStore.history s) as [|a h] eqn:Eh; [discriminate|].
    cbn [tl]. simpl in Hl. assert (Hh : length h = 49) by lia.
    rewrite Hi in Hd0. cbn [nth_error] in Hd0.
    set (h1 := h ++ [GraphStore.data s]).
    assert (Hlen1 : length h1 = 50)
      by (unfold h1; rewrite length_app, Hh; reflexivity).
    assert (Hlast : nth_error h1 49 = Some (GraphStore.data s)).
    { unfold h1. rewrite nth_error_app2 by lia. rewrite Hh. reflexivity. }
    assert (Hprev : nth_error h1 48 = Some d0).
    { unfold h1. rewrite nth_error_app1 by lia. exact Hd0. }
    store_fields. split; [reflexivity|]. split; [exact Hlast|]. split.
    { unfold GraphStore.canRedo. store_fields. rewrite Hlen1. reflexivity. }
    exists (GraphStore.withHistory
              (GraphStore.withHistory s (GraphStore.data s) h1 49) d0 h1 48).
    exists (GraphStore.withHistory
              (GraphStore.withHistory
                 (GraphStore.withHistory s (GraphStore.data s) h1 49) d0 h1 48)
              (GraphStore.data s) h1 49).
    split; [|split; [reflexivity|split; [|split; reflexivity]]].
    + unfold GraphStore.undo, GraphStore.restore. store_fields.
      change (0 <? 49) with true. change (49 - 1) with 48. now rewrite Hprev.
    + unfold GraphStore.redo, GraphStore.canRedo, GraphStore.restore. store_fields.
      rewrite Hlen1. change (48 + 1 <? 50) with true. change (48 + 1) with 49.
      now rewrite Hlast.
Qed.

Lemma save_undo_redo_witness :
  GraphStore.canRedo (GraphStore.saveToHistory sampleState) = false.
Proof.
  refine (proj1 (proj2 (proj2 (save_undo_redo sampleState scenarioGraph _ _)))).
  - unfold historyOk. simpl. lia.
  - reflexivity.
Defined.

(** X3. When the data is the snapshot under the index, [redo] undoes [undo]:
    the state after both is the state before, for every index above 0; and
    [undo] at index 0 and [redo] at the last entry change nothing. *)
Theorem redo_after_undo :
  forall s : GraphStore.State,
    historyOk s ->
    nth_error (GraphStore.history s) (GraphStore.historyIndex s)
    = Some (GraphStore.data s) ->
    (0 < GraphStore.historyIndex s ->
     exists s', GraphStore.undo s = Some s'
                /\ GraphStore.canRedo s' = true
                /\ GraphStore.redo s' = Some s)
    /\ (GraphStore.historyIndex s = 0 -> GraphStore.undo s = Some s)
    /\ (GraphStore.historyIndex s + 1 = length (GraphStore.history s) ->
        GraphStore.redo s = Some s).
Proof.
  intros s [Hi Hlen] Hcur. split; [|split].
  - intros Hpos. unfold GraphStore.undo.
    destruct (Nat.ltb_spec 0 (GraphStore.historyIndex s)); [|lia].
    destruct (restore_ok s (GraphStore.historyIndex s - 1)) as [d [_ E]]; [lia|].
    rewrite E. eexists. split; [reflexivity|].
    unfold GraphStore.redo, GraphStore.canRedo, GraphStore.restore.
    cbn [GraphStore.historyIndex GraphStore.history GraphStore.withHistory].
    replace (GraphStore.historyIndex s - 1 + 1) with (GraphStore.historyIndex s) by lia.
    destruct (Nat.ltb_spec (GraphStore.historyIndex s) (length (GraphStore.history s)));
      [|lia].
    split; [reflexivity|]. rewrite Hcur. destruct s; reflexivity.
  - intros Hz. unfold GraphStore.undo. now rewrite Hz.
  - intros Hl. unfold GraphStore.redo, GraphStore.canRedo.
    destruct (Nat.ltb_spec (GraphStore.historyIndex s + 1)
                           (length (GraphStore.history s))); [lia | reflexivity].
Qed.

Lemma redo_after_undo_witness :
  exists s', GraphStore.undo sampleState = Some s'
             /\ GraphStore.canRedo s' = true
             /\ GraphStore.redo s' = Some sampleState.
Proof.
  refine (proj1 (redo_after_undo sampleState _ _) _).
  - unfold historyOk. simpl. lia.
  - reflexivity.
  - simpl. lia.
Defined.

(** ** Editing the graph *)

Lemma has_delete s x y :
  JSSet.has (JSSet.delete s x) y = negb (String.eqb x y) && JSSet.has s y.
Proof.
  unfold JSSet.delete, JSSet.has. induction s as [|a s IH]; simpl.
  - now rewrite andb_false_r.
  - destruct (String.eqb_spec x a) as [->|Hxa]; simpl.
    + rewrite IH. destruct (String.eqb_spec y a) as [->|Hya]; simpl.
      * rewrite String.eqb_refl. reflexivity.
      * reflexivity.
    + rewrite IH. destruct (String.eqb_spec y a) as [->|Hya]; simpl.
      * destruct (String.eqb_spec x a); [contradiction | reflexivity].
      * reflexivity.
Qed.

Lemma find_none_iff {A : Type} (f : A -> bool) (l : list A) :
  find f l = None <-> forall x, In x l -> f x = false.
Proof.
  split; [apply find_none|].
  induction l as [|a l IH]; simpl; intros H; [reflexivity|].
  rewrite (H a (or_introl eq_refl)). apply IH. auto.
Qed.

(** X4. [removeNode] removes every node with the given id and every edge
    that starts or ends there, and nothing else; the id is no longer
    selected, found or connected, and the other node selections stay. A
    graph whose edges all join existing nodes stays so. The selected edge
    ids are not touched, so the ids of removed edges can stay selected. *)
Theorem removeNode_removes_node_and_incident_edges :
  forall (x : string) (s : GraphStore.State),
    let s' := GraphStore.removeNode x s in
    (forall n, In n (nodes (GraphStore.data s')) <->
               In n (nodes (GraphStore.data s)) /\ id n <> x)
    /\ (forall e, In e (edges (GraphStore.data s')) <->
                  In e (edges (GraphStore.data s))
                  /\ source e <> x /\ target e <> x)
    /\ GraphStore.getNodeById x s' = None
    /\ GraphStore.getConnectedEdges x s' = []
    /\ (forall y, GraphStore.isNodeSelected y s'
                  = negb (String.eqb x y) && GraphStore.isNodeSelected y s)
    /\ Store.selectedEdgeIds (GraphStore.selection s')
       = Store.selectedEdgeIds (GraphStore.selection s)
    /\ (wellFormed (GraphStore.data s) -> wellFormed (GraphStore.data s')).
Proof.
  intros x s s'.
  assert (Hn : forall n, In n (nodes (GraphStore.data s')) <->
                         In n (nodes (GraphStore.data s)) /\ id n <> x).
  { intros n. subst s'. cbn [GraphStore.removeNode GraphStore.data nodes].
    rewrite filter_In, negb_true_iff, String.eqb_neq. tauto. }
  assert (He : forall e, In e (edges (GraphStore.data s')) <->
                         In e (edges (GraphStore.data s))
                         /\ source e <> x /\ target e <> x).
  { intros e. subst s'. cbn [GraphStore.removeNode GraphStore.data edges].
    rewrite filter_In, andb_true_iff, !negb_true_iff, !String.eqb_neq. tauto. }
  split; [exact Hn|]. split; [exact He|]. split; [|split; [|split; [|split]]].
  - unfold GraphStore.getNodeById. apply find_none_iff.
    intros n Hin. apply Hn in Hin. now apply String.eqb_neq.
  - unfold GraphStore.getConnectedEdges. apply filter_none.
    intros e Hin. apply He in Hin. destruct Hin as [_ [Hs Ht]].
    apply String.eqb_neq in Hs. apply String.eqb_neq in Ht. now rewrite Hs, Ht.
  - intros y. unfold GraphStore.isNodeSelected. subst s'.
    cbn [GraphStore.removeNode GraphStore.selection Store.selectedNodeIds].
    apply has_delete.
  - reflexivity.
  - intros Hwf e Hin. apply He in Hin. destruct Hin as [Hin [Hs Ht]].
    destruct (Hwf e Hin) as [Hsrc Htgt].
    apply in_map_iff in Hsrc. destruct Hsrc as [a [Ea Ha]].
    apply in_map_iff in Htgt. destruct Htgt as [b [Eb Hb]].
    split; apply in_map_iff.
    + exists a. split; [assumption|]. apply Hn. split; [assumption | congruence].
    + exists b. split; [assumption|]. apply Hn. split; [assumption | congruence].
Qed.

Lemma scenarioGraph_wellFormed : wellFormed scenarioGraph.
Proof.
  intros e [<-|[<-|[]]]; simpl; auto.
Qed.

Lemma removeNode_removes_node_and_incident_edges_witness :
  wellFormed (GraphStore.data (GraphStore.removeNode "C" sampleState)).
Proof.
  apply (removeNode_removes_node_and_incident_edges "C" sampleState).
  exact scenarioGraph_wellFormed.
Defined.

(** X5. [addNode] and [removeEdge] keep a graph whose edges all join
    existing nodes in that state, and so does [addEdge] when both endpoints
    of the new edge are ids of nodes; [addEdge] itself checks nothing, and
    the edge it appends is in the data afterwards whatever its endpoints. *)
Theorem edits_keep_edges_attached :
  forall (s : GraphStore.State),
    wellFormed (GraphStore.data s) ->
    (forall n, wellFormed (GraphStore.data (GraphStore.addNode n s)))
    /\ (forall x, wellFormed (GraphStore.data (GraphStore.removeEdge x s)))
    /\ (forall e,
           In e (edges (GraphStore.data (GraphStore.addEdge e s)))
           /\ (In (source e) (map id (nodes (GraphStore.data s))) ->
               In (target e) (map id (nodes (GraphStore.data s))) ->
               wellFormed (GraphStore.data (GraphStore.addEdge e s)))).
Proof.
  intros s Hwf. split; [|split].
  - intros n e Hin. cbn in Hin. destruct (Hwf e Hin) as [Hs Ht].
    cbn. rewrite map_app, !in_app_iff. auto.
  - intros x e Hin. cbn in Hin. apply filter_In in Hin. destruct Hin as [Hin _].
    exact (Hwf e Hin).
  - intros e. split.
    + cbn. apply in_or_app. right. now left.
    + intros Hs Ht e' Hin. cbn in Hin. apply in_app_or in Hin.
      destruct Hin as [Hin|[<-|[]]]; cbn; auto.
Qed.

Lemma edits_keep_edges_attached_witness :
  wellFormed (GraphStore.data
                (GraphStore.addNode (mkNode "D" "Heart rate" "metric") sampleState)).
Proof.
  apply (edits_keep_edges_attached sampleState scenarioGraph_wellFormed).
Defined.

(** X6. Removing what was just added gives the data back: [removeNode]
    after [addNode] when no node had the new id and every edge joins
    existing nodes, and [removeEdge] after [addEdge] when no edge had the new
    edge id. *)
Theorem remove_after_add :
  forall (s : GraphStore.State),
    (forall n,
        wellFormed (GraphStore.data s) ->
        ~ In (id n) (map id (nodes (GraphStore.data s))) ->
        GraphStore.data (GraphStore.removeNode (id n) (GraphStore.addNode n s))
        = GraphStore.data s)
    /\ (forall e,
           ~ In (eid e) (map eid (edges (GraphStore.data s))) ->
           GraphStore.data (GraphStore.removeEdge (eid e) (GraphStore.addEdge e s))
           = GraphStore.data s).
Proof.
  intros s. split.
  - intros n Hwf Hfresh.
    cbn [GraphStore.removeNode GraphStore.addNode GraphStore.withData
         GraphStore.data nodes edges].
    rewrite filter_app. cbn [filter]. rewrite String.eqb_refl. cbn [negb].
    rewrite app_nil_r. rewrite !filter_all.
    + now destruct (GraphStore.data s).
    + intros e Hin. destruct (Hwf e Hin) as [Hs Ht].
      apply andb_true_iff. split; apply negb_true_iff, String.eqb_neq; congruence.
    + intros a Hin. apply negb_true_iff, String.eqb_neq. intros E.
      apply Hfresh. rewrite <- E. now apply in_map.
  - intros e Hfresh.
    cbn [GraphStore.removeEdge GraphStore.addEdge GraphStore.withData
         GraphStore.data nodes edges].
    rewrite filter_app. cbn [filter]. rewrite String.eqb_refl. cbn [negb].
    rewrite app_nil_r. rewrite filter_all.
    + now destruct (GraphStore.data s).
    + intros a Hin. apply negb_true_iff, String.eqb_neq. intros E.
      apply Hfresh. rewrite <- E. now apply in_map.
Qed.

Lemma remove_after_add_witness :
  GraphStore.data (GraphStore.removeNode "D"
                     (GraphStore.addNode (mkNode "D" "Heart rate" "metric")
                                         sampleState))
  = GraphStore.data sampleState.
Proof.
  apply (proj1 (remove_after_add sampleState) (mkNode "D" "Heart rate" "metric")).
  - exact scenarioGraph_wellFormed.
  - simpl. intuition discriminate.
Defined.

(** ** Selection over the data *)

Lemma NoDup_add s x : NoDup s -> NoDup (JSSet.add s x).
Proof.
  intros H. unfold JSSet.add. destruct (JSSet.has s x) eqn:E; [assumption|].
  apply has_false_In in E.
  apply NoDup_rev in H. rewrite <- (rev_involutive (s ++ [x])), rev_app_distr.
  apply NoDup_rev. simpl. constructor; [now rewrite <- in_rev | assumption].
Qed.

Lemma NoDup_fold_add l s : NoDup s -> NoDup (fold_left JSSet.add l s).
Proof.
  revert s. induction l as [|a l IH]; intros s H; simpl; [assumption|].
  now apply IH, NoDup_add.
Qed.

(** X7. After [selectAll] the selected nodes are all the nodes of the data
    and the selected edges all its edges, an id is selected exactly when
    some node (or edge) carries it, and neither set holds an id twice
    whatever ids the data repeats; after [clearSelection] nothing is
    selected. *)
Theorem selectAll_selects_the_data :
  forall s : GraphStore.State,
    let s' := GraphStore.selectAll s in
    GraphStore.getSelectedNodes s' = nodes (GraphStore.data s)
    /\ GraphStore.getSelectedEdges s' = edges (GraphStore.data s)
    /\ (forall x, GraphStore.isNodeSelected x s' = true <->
                  In x (map id (nodes (GraphStore.data s))))
    /\ (forall x, GraphStore.isEdgeSelected x s' = true <->
                  In x (map eid (edges (GraphStore.data s))))
    /\ NoDup (Store.selectedNodeIds (GraphStore.selection s'))
    /\ NoDup (Store.selectedEdgeIds (GraphStore.selection s'))
    /\ GraphStore.getSelectedNodes (GraphStore.clearSelection s') = []
    /\ GraphStore.getSelectedEdges (GraphStore.clearSelection s') = [].
Proof.
  intros s s'.
  assert (Hn : forall x, GraphStore.isNodeSelected x s' = true <->
                         In x (map id (nodes (GraphStore.data s)))).
  { intros x. unfold GraphStore.isNodeSelected. subst s'.
    cbn [GraphStore.selectAll GraphStore.withSelection GraphStore.selection
         Store.selectedNodeIds JSSet.clear].
    rewrite has_In, In_fold_add. simpl. tauto. }
  assert (He : forall x, GraphStore.isEdgeSelected x s' = true <->
                         In x (map eid (edges (GraphStore.data s)))).
  { intros x. unfold GraphStore.isEdgeSelected. subst s'.
    cbn [GraphStore.selectAll GraphStore.withSelection GraphStore.selection
         Store.selectedEdgeIds JSSet.clear].
    rewrite has_In, In_fold_add. simpl. tauto. }
  repeat split.
  - unfold GraphStore.getSelectedNodes. apply filter_all.
    intros n Hin. apply Hn. now apply in_map.
  - unfold GraphStore.getSelectedEdges. apply filter_all.
    intros e Hin. apply He. now apply in_map.
  - apply Hn.
  - apply Hn.
  - apply He.
  - apply He.
  - apply NoDup_fold_add. constructor.
  - apply NoDup_fold_add. constructor.
  - apply filter_none. reflexivity.
  - apply filter_none. reflexivity.
Qed.

(** X8. A selection with the multi flag adds to what is selected: the node
    set gains the id and keeps every other member, the edge set is
    unchanged, no id is ever held twice, and selecting the same id again
    changes nothing. *)
Theorem multi_select_adds_to_selection :
  forall (x : string) (sel : Store.SelectionState),
    let sel' := Store.selectNode x true sel in
    (forall y, JSSet.has (Store.selectedNodeIds sel') y
               = String.eqb y x || JSSet.has (Store.selectedNodeIds sel) y)
    /\ Store.selectedEdgeIds sel' = Store.selectedEdgeIds sel
    /\ (NoDup (Store.selectedNodeIds sel) -> NoDup (Store.selectedNodeIds sel'))
    /\ Store.selectNode x true sel' = sel'.
Proof.
  intros x sel sel'. split; [|split; [|split]].
  - intros y. apply has_add.
  - reflexivity.
  - apply NoDup_add.
  - subst sel'. unfold Store.selectNode.
    cbn [Store.clearUnlessMulti negb Store.selectedNodeIds Store.selectedEdgeIds
         Store.selectionMode].
    f_equal. unfold JSSet.add at 1.
    now rewrite has_add, String.eqb_refl.
Qed.

Lemma multi_select_adds_to_selection_witness :
  NoDup (Store.selectedNodeIds
           (Store.selectNode "A" true
              (Store.selectNode "B" false Store.initialSelection))).
Proof.
  apply (multi_select_adds_to_selection "A"
           (Store.selectNode "B" false Store.initialSelection)).
  simpl. repeat constructor. simpl. tauto.
Defined.

(** X9. [getNeighborNodes] returns, in the order of the data, exactly the
    nodes joined to the given id by an edge in either direction; between
    two nodes of the data the relation is symmetric. *)
Theorem neighbours_are_adjacent_nodes :
  forall (s : GraphStore.State) (x : string),
    (forall n, In n (GraphStore.getNeighborNodes x s) <->
               In n (nodes (GraphStore.data s))
               /\ exists e, In e (edges (GraphStore.data s))
                            /\ ((source e = x /\ target e = id n)
                                \/ (target e = x /\ source e = id n)))
    /\ (forall n m,
           In n (nodes (GraphStore.data s)) ->
           In m (nodes (GraphStore.data s)) ->
           In n (GraphStore.getNeighborNodes (id m) s) ->
           In m (GraphStore.getNeighborNodes (id n) s)).
Proof.
  intros s.
  assert (H : forall x n, In n (GraphStore.getNeighborNodes x s) <->
               In n (nodes (GraphStore.data s))
               /\ exists e, In e (edges (GraphStore.data s))
                            /\ ((source e = x /\ target e = id n)
                                \/ (target e = x /\ source e = id n))).
  { intros x n. unfold GraphStore.getNeighborNodes, GraphStore.getConnectedEdges.
    rewrite filter_In, includes_In, in_map_iff.
    split; intros [Hn [e He]]; (split; [assumption|]); exists e.
    - destruct He as [E Hin]. apply filter_In in Hin. destruct Hin as [Hin Hc].
      split; [assumption|].
      destruct (String.eqb_spec (source e) x) as [Hs|Hs].
      + left. auto.
      + right. simpl in Hc. apply String.eqb_eq in Hc. auto.
    - destruct He as [Hin [[Hs Ht]|[Ht Hs]]].
      + split.
        * apply String.eqb_eq in Hs. now rewrite Hs.
        * apply filter_In. split; [assumption|].
          apply String.eqb_eq in Hs. now rewrite Hs.
      + split.
        * destruct (String.eqb_spec (source e) x); congruence.
        * apply filter_In. split; [assumption|].
          apply String.eqb_eq in Ht. rewrite Ht. apply orb_true_r. }
  intros x. split; [apply H|].
  intros n m Hn Hm Hnm. apply H in Hnm. destruct Hnm as [_ [e [Hin Hcase]]].
  apply H. split; [assumption|]. exists e. tauto.
Qed.

Lemma neighbours_are_adjacent_nodes_witness :
  In (mkNode "B" "Squat" "exercise")
     (GraphStore.getNeighborNodes "C" sampleState).
Proof.
  apply (proj2 (neighbours_are_adjacent_nodes sampleState "C")
           (mkNode "C" "Resistance band" "equipment")
           (mkNode "B" "Squat" "exercise")).
  - simpl. auto.
  - simpl. auto.
  - vm_compute. auto.
Defined.

(** ** What the reducer does to nodes and edges *)

Lemma clusteredData_disabled thr nt ex data :
  clusteredData false thr nt ex data
  = {| cnodes := map Plain (nodes data); cedges := edges data |}.
Proof. apply clusteredData_passthrough. now left. Qed.

Lemma In_Cluster_output enable thr nt ex data c :
  In (Cluster c) (cnodes (clusteredData enable thr nt ex data)) ->
  enable = true
  /\ (thr <= Z.of_nat (length (nodes data)))%Z
  /\ In c (clusterNodesOf thr nt ex data).
Proof.
  destruct enable.
  - intros H. apply In_Cluster_clusteredData in H. tauto.
  - rewrite clusteredData_disabled. cbn [cnodes]. intros H.
    apply in_map_iff in H. destruct H as [n [E _]]. discriminate.
Qed.

Lemma folded_in_cluster thr nt ex data n :
  In n (nodes data) -> folded thr nt ex data n = true ->
  In (mkClusterNode (clusterKey (type n))
                    (groupMembers nt (clusterKey (type n)) (nodes data)))
     (clusterNodesOf thr nt ex data)
  /\ In n (groupMembers nt (clusterKey (type n)) (nodes data)).
Proof.
  intros Hn Hf. unfold folded in Hf. apply andb_true_iff in Hf.
  destruct Hf as [Hnt Hc].
  assert (Hmem : In n (groupMembers nt (clusterKey (type n)) (nodes data))).
  { apply filter_In. split; [assumption|].
    unfold inGroup. now rewrite Hnt, String.eqb_refl. }
  split; [|exact Hmem].
  apply In_clusterNodesOf. exists (clusterKey (type n)). cbn zeta.
  unfold collapsed in Hc. cbn [fst snd] in Hc.
  apply andb_true_iff in Hc. destruct Hc as [Hlt Hex].
  apply Z.ltb_lt in Hlt. apply negb_true_iff in Hex.
  repeat split; auto. intros E. rewrite E in Hmem. contradiction.
Qed.

Lemma unfolded_in_remaining thr nt ex data n :
  In n (nodes data) -> folded thr nt ex data n = false ->
  In n (remainingNodesOf thr nt ex data).
Proof.
  intros Hn Hf. unfold remainingNodesOf. apply in_or_app.
  unfold folded in Hf. destruct (JSSet.has nt (type n)) eqn:Hnt.
  - left. apply In_collapse_remaining. auto.
  - right. apply filter_In. split; [assumption|]. now rewrite Hnt.
Qed.

Lemma In_remainingNodesOf thr nt ex data n :
  In n (remainingNodesOf thr nt ex data) -> In n (nodes data).
Proof.
  unfold remainingNodesOf. intros H. apply in_app_or in H. destruct H as [H|H].
  - apply In_collapse_remaining in H. tauto.
  - apply filter_In in H. tauto.
Qed.

(** X10. The reducer loses no node and invents none: every node of the data
    comes out as an ordinary node or has its id among the children of a
    cluster node of its own type; every ordinary node of the output is a node
    of the data; and every child of a cluster node is the id of a node of the
    data of the cluster's type. *)
Theorem reducer_accounts_for_every_node :
  forall (enable : bool) (thr : Z) (nt ex : JSSet.t) (data : GraphData),
    let out := cnodes (clusteredData enable thr nt ex data) in
    (forall n, In n (nodes data) ->
               In (Plain n) out
               \/ exists c, In (Cluster c) out
                            /\ cid c = clusterKey (type n)
                            /\ In (id n) (childNodes c))
    /\ (forall n, In (Plain n) out -> In n (nodes data))
    /\ (forall c x, In (Cluster c) out -> In x (childNodes c) ->
                    exists n, In n (nodes data) /\ id n = x
                              /\ clusterKey (type n) = cid c).
Proof.
  intros enable thr nt ex data out. split; [|split].
  - intros n Hn. subst out.
    destruct enable; [|left; rewrite clusteredData_disabled; now apply in_map].
    destruct (Z.ltb_spec (Z.of_nat (length (nodes data))) thr) as [Hearly|Hlate].
    + left. rewrite clusteredData_passthrough by auto. now apply in_map.
    + rewrite clusteredData_clustering by assumption. cbn [cnodes].
      destruct (folded thr nt ex data n) eqn:Hf.
      * right. destruct (folded_in_cluster _ _ _ _ _ Hn Hf) as [Hc Hmem].
        eexists. split; [apply In_Cluster_app; exact Hc|].
        split; [reflexivity|]. cbn [childNodes mkClusterNode]. now apply in_map.
      * left. apply In_Plain_app. now apply unfolded_in_remaining.
  - intros n Hn. subst out.
    destruct enable;
      [|rewrite clusteredData_disabled in Hn; cbn [cnodes] in Hn;
        apply in_map_iff in Hn; destruct Hn as [m [E Hm]];
        now inversion E; subst].
    destruct (Z.ltb_spec (Z.of_nat (length (nodes data))) thr) as [Hearly|Hlate].
    + rewrite clusteredData_passthrough in Hn by auto. cbn [cnodes] in Hn.
      apply in_map_iff in Hn. destruct Hn as [m [E Hm]]. now inversion E; subst.
    + rewrite clusteredData_clustering in Hn by assumption.
      apply In_Plain_app in Hn. now apply In_remainingNodesOf in Hn.
  - intros c x Hc Hx. apply In_Cluster_output in Hc. destruct Hc as [_ [_ Hc]].
    now apply (childNodes_member thr nt ex data c x).
Qed.

Lemma rewriteId_cases cn x :
  rewriteId cn x = x \/ exists c, In c cn /\ rewriteId cn x = cid c.
Proof.
  revert x. induction cn as [|c cn IH]; intros x; simpl; [now left|].
  destruct (includes (childNodes c) x).
  - destruct (IH (cid c)) as [E|[c' [Hc' E]]].
    + right. exists c. auto.
    + right. exists c'. auto.
  - destruct (IH x) as [E|[c' [Hc' E]]].
    + now left.
    + right. exists c'. auto.
Qed.

(** X11. Every edge of the output stems from an edge of the data with the
    same edge id and type, and each of its endpoints is the endpoint of that
    edge or the id of a cluster node of the output: the rewriting changes
    endpoints only into cluster ids. *)
Theorem reducer_edges_stem_from_data :
  forall (enable : bool) (thr : Z) (nt ex : JSSet.t) (data : GraphData) (e : EdgeData),
    let out := clusteredData enable thr nt ex data in
    In e (cedges out) ->
    exists e0, In e0 (edges data)
               /\ eid e = eid e0 /\ etype e = etype e0
               /\ (source e = source e0
                   \/ exists c, In (Cluster c) (cnodes out) /\ source e = cid c)
               /\ (target e = target e0
                   \/ exists c, In (Cluster c) (cnodes out) /\ target e = cid c).
Proof.
  intros enable thr nt ex data e out He. subst out.
  destruct enable;
    [|rewrite clusteredData_disabled in He; exists e; cbn [cedges] in He;
      repeat split; auto].
  destruct (Z.ltb_spec (Z.of_nat (length (nodes data))) thr) as [Hearly|Hlate].
  - rewrite clusteredData_passthrough in He by auto. exists e.
    cbn [cedges] in He. repeat split; auto.
  - rewrite clusteredData_clustering in * by assumption. cbn [cedges cnodes] in *.
    apply uniqueByKey_In in He. unfold updatedEdgesOf in He.
    apply in_map_iff in He. destruct He as [e0 [<- He0]].
    exists e0. split; [assumption|].
    rewrite source_rewriteEdge, target_rewriteEdge.
    split; [unfold rewriteEdge; now destruct (fold_left _ _ _)|].
    split; [unfold rewriteEdge; now destruct (fold_left _ _ _)|].
    split.
    + destruct (rewriteId_cases (clusterNodesOf thr nt ex data) (source e0))
        as [E|[c [Hc E]]]; [now left|].
      right. exists c. split; [now apply In_Cluster_app | assumption].
    + destruct (rewriteId_cases (clusterNodesOf thr nt ex data) (target e0))
        as [E|[c [Hc E]]]; [now left|].
      right. exists c. split; [now apply In_Cluster_app | assumption].
Qed.

Lemma reducer_edges_stem_from_data_witness :
  exists e0, In e0 (edges threeExercises) /\ eid e0 = "x".
Proof.
  destruct (reducer_edges_stem_from_data
              true 2 ["exercise"] [] threeExercises
              (mkEdge "x" "cluster_exercise" "cluster_exercise" "related_to"))
    as [e0 [Hin [E _]]].
  - vm_compute. auto.
  - exists e0. split; [assumption | now rewrite <- E].
Defined.

Section EndpointsStayValid.
  Variables (thr : Z) (nt ex : JSSet.t) (data : GraphData).
  Hypothesis Hunique : NoDup (map id (nodes data)).
  Hypothesis Hfresh :
    forall n n', In n (nodes data) -> In n' (nodes data) ->
                 id n <> clusterKey (type n').
  Hypothesis Hpath : (thr <= Z.of_nat (length (nodes data)))%Z.

Lemma unfolded_untouched n :
  In n (nodes data) -> folded thr nt ex data n = false ->
  rewriteId (clusterNodesOf thr nt ex data) (id n) = id n.
Proof.
  intros Hn Hf. apply rewriteId_untouched. intros c Hc Hx.
  apply In_clusterNodesOf in Hc.
  destruct Hc as [k [-> [Hne [Hlt Hex]]]]. cbn [childNodes mkClusterNode] in Hx.
  apply in_map_iff in Hx. destruct Hx as [n' [E Hn']].
  assert (Hg := Hn'). apply filter_In in Hg. destruct Hg as [Hin' Hg].
  assert (n' = n) by (apply (unique_id (nodes data)); assumption).
  subst n'. unfold inGroup in Hg. apply andb_true_iff in Hg.
  destruct Hg as [Hnt Hk]. apply String.eqb_eq in Hk. subst k.
  unfold folded in Hf. rewrite Hnt in Hf. cbn [andb] in Hf.
  unfold collapsed in Hf. cbn [fst snd] in Hf.
  apply Z.ltb_lt in Hlt. rewrite Hlt, Hex in Hf. discriminate.
Qed.

Lemma rewritten_id_in_output n :
  In n (nodes data) ->
  In (rewriteId (clusterNodesOf thr nt ex data) (id n))
     (map vid (cnodes (clusteredData true thr nt ex data))).
Proof.
  intros Hn. rewrite clusteredData_clustering by assumption. cbn [cnodes].
  rewrite map_app, in_app_iff.
  destruct (folded thr nt ex data n) eqn:Hf.
  - right. destruct (folded_in_cluster _ _ _ _ _ Hn Hf) as [Hc Hmem].
    rewrite (member_rewritten thr nt ex data Hunique Hfresh _ (id n) Hc);
      [|cbn [childNodes mkClusterNode]; now apply in_map].
    rewrite map_map. apply in_map_iff. eexists. split; [|exact Hc]. reflexivity.
  - left. rewrite unfolded_untouched by assumption.
    rewrite map_map. apply in_map_iff. exists n. split; [reflexivity|].
    now apply unfolded_in_remaining.
Qed.

End EndpointsStayValid.

(** X12. When the ids of the data are pairwise distinct, none of them is the
    id of a cluster, and every edge of the data joins two of its nodes, every
    edge that the reducer returns joins two nodes that it returns: an
    endpoint folded into a cluster is replaced by the id of that cluster
    node, any other endpoint is still an ordinary node. *)
Theorem reducer_keeps_edges_attached :
  forall (enable : bool) (thr : Z) (nt ex : JSSet.t) (data : GraphData),
    NoDup (map id (nodes data)) ->
    (forall n n', In n (nodes data) -> In n' (nodes data) ->
                  id n <> clusterKey (type n')) ->
    wellFormed data ->
    let out := clusteredData enable thr nt ex data in
    forall e, In e (cedges out) ->
              In (source e) (map vid (cnodes out))
              /\ In (target e) (map vid (cnodes out)).
Proof.
  intros enable thr nt ex data Hunique Hfresh Hwf out e He. subst out.
  assert (Hpass : forall en,
             clusteredData en thr nt ex data
             = {| cnodes := map Plain (nodes data); cedges := edges data |} ->
             In e (cedges (clusteredData en thr nt ex data)) ->
             In (source e) (map vid (cnodes (clusteredData en thr nt ex data)))
             /\ In (target e) (map vid (cnodes (clusteredData en thr nt ex data)))).
  { intros en E Hin. rewrite E in *. cbn [cnodes cedges] in *.
    rewrite map_map. cbn [vid]. now apply Hwf. }
  destruct enable; [|apply Hpass; [apply clusteredData_disabled | assumption]].
  destruct (Z.ltb_spec (Z.of_nat (length (nodes data))) thr) as [Hearly|Hlate];
    [apply Hpass; [apply clusteredData_passthrough; auto | assumption]|].
  assert (He' := He). rewrite clusteredData_clustering in He' by assumption.
  cbn [cedges] in He'. apply uniqueByKey_In in He'. unfold updatedEdgesOf in He'.
  apply in_map_iff in He'. destruct He' as [e0 [<- He0]].
  rewrite source_rewriteEdge, target_rewriteEdge.
  destruct (Hwf e0 He0) as [Hs Ht].
  apply in_map_iff in Hs. destruct Hs as [a [<- Ha]].
  apply in_map_iff in Ht. destruct Ht as [b [<- Hb]].
  split; now apply rewritten_id_in_output.
Qed.

Lemma threeExercises_distinct :
  NoDup (map id (nodes threeExercises))
  /\ (forall n n', In n (nodes threeExercises) -> In n' (nodes threeExercises) ->
                   id n <> clusterKey (type n'))
  /\ wellFormed threeExercises.
Proof.
  split; [|split].
  - simpl. repeat constructor; simpl; intuition discriminate.
  - simpl. intros n n' [<-|[<-|[<-|[]]]] [<-|[<-|[<-|[]]]]; discriminate.
  - intros e [<-|[]]. simpl. auto.
Qed.

Lemma reducer_keeps_edges_attached_witness :
  In "cluster_exercise"
     (map vid (cnodes (clusteredData true 2 ["exercise"] [] threeExercises))).
Proof.
  refine (proj1 (reducer_keeps_edges_attached
                   true 2 ["exercise"] [] threeExercises
                   (proj1 threeExercises_distinct)
                   (proj1 (proj2 threeExercises_distinct))
                   (proj2 (proj2 threeExercises_distinct))
                   (mkEdge "x" "cluster_exercise" "cluster_exercise" "related_to")
                   _)).
  vm_compute. auto.
Defined.

(** ** Toggling a member of a set *)

Lemma toggle_twice_same_members k s :
  JSSet.same_members (handleClusterClick k (handleClusterClick k s)) s.
Proof.
  intros y. unfold handleClusterClick.
  destruct (JSSet.has s k) eqn:E.
  - rewrite has_delete, String.eqb_refl. cbn [negb andb].
    rewrite has_add, has_delete.
    destruct (String.eqb_spec y k) as [->|Hne].
    + now rewrite E.
    + destruct (String.eqb_spec k y); [congruence | reflexivity].
  - rewrite has_add, String.eqb_refl. cbn [orb].
    rewrite has_delete, has_add.
    destruct (String.eqb_spec k y) as [<-|Hne]; cbn [negb andb].
    + now rewrite E.
    + destruct (String.eqb_spec y k); [congruence | reflexivity].
Qed.

Lemma toggle_has_self k s :
  JSSet.has (handleClusterClick k s) k = negb (JSSet.has s k).
Proof.
  unfold handleClusterClick. destruct (JSSet.has s k) eqn:E.
  - now rewrite has_delete, String.eqb_refl.
  - now rewrite has_add, String.eqb_refl.
Qed.

(** X13. A click on a cluster (and, with the same code, a toggle of a node
    or edge type in the search panel) flips the membership of that id and of
    no other, and never makes the set hold an id twice. A second click
    restores the members, and restores the very set when the id was not in
    it at first; the reducer then returns what it returned before the two
    clicks. *)
Theorem toggle_flips_one_member :
  forall (k : string) (s : JSSet.t),
    JSSet.has (handleClusterClick k s) k = negb (JSSet.has s k)
    /\ (forall y, y <> k -> JSSet.has (handleClusterClick k s) y = JSSet.has s y)
    /\ (NoDup s -> NoDup (handleClusterClick k s))
    /\ JSSet.same_members (handleClusterClick k (handleClusterClick k s)) s
    /\ (JSSet.has s k = false ->
        handleClusterClick k (handleClusterClick k s) = s)
    /\ (forall enable thr nt data,
           clusteredData enable thr nt
                         (handleClusterClick k (handleClusterClick k s)) data
           = clusteredData enable thr nt s data)
    /\ handleTypeToggle k s = handleClusterClick k s.
Proof.
  intros k s. split; [|split; [|split; [|split; [|split; [|split]]]]].
  - apply toggle_has_self.
  - intros y Hne. unfold handleClusterClick. destruct (JSSet.has s k).
    + rewrite has_delete. destruct (String.eqb_spec k y); [congruence | reflexivity].
    + rewrite has_add. destruct (String.eqb_spec y k); [congruence | reflexivity].
  - intros Hnd. unfold handleClusterClick. destruct (JSSet.has s k).
    + now apply NoDup_filter.
    + now apply NoDup_add.
  - apply toggle_twice_same_members.
  - intros E. unfold handleClusterClick at 2. rewrite E.
    unfold handleClusterClick. rewrite has_add, String.eqb_refl. cbn [orb].
    unfold JSSet.add. rewrite E. unfold JSSet.delete.
    rewrite filter_app. cbn [filter]. rewrite String.eqb_refl. cbn [negb].
    rewrite app_nil_r. apply filter_all.
    intros y Hy. apply negb_true_iff, String.eqb_neq. intros <-.
    apply has_false_In in E. contradiction.
  - intros enable thr nt data. apply clusteredData_same_members.
    + intros y. reflexivity.
    + apply toggle_twice_same_members.
  - reflexivity.
Qed.

Lemma toggle_flips_one_member_witness :
  handleClusterClick "cluster_exercise"
    (handleClusterClick "cluster_exercise" ["cluster_metric"])
  = ["cluster_metric"].
Proof.
  apply (toggle_flips_one_member "cluster_exercise" ["cluster_metric"]).
  reflexivity.
Defined.

(** ** How a cluster node looks *)

Lemma csize_bounds (n : nat) :
  1 <= n ->
  (35 < Qmin (35 + inject_Z (Z.of_nat n) / 2) 60)%Q
  /\ (Qmin (35 + inject_Z (Z.of_nat n) / 2) 60 <= 60)%Q
  /\ (50 <= n -> (Qmin (35 + inject_Z (Z.of_nat n) / 2) 60 == 60)%Q).
Proof.
  intros Hn. split; [|split].
  - apply Q.min_glb_lt.
    + unfold Qdiv. change (/ 2)%Q with (1 # 2)%Q.
      unfold Qlt, Qmult, Qplus, inject_Z. cbn [Qnum Qden]. lia.
    + reflexivity.
  - apply Q.le_min_r.
  - intros H50. apply Q.min_r.
    unfold Qdiv. change (/ 2)%Q with (1 # 2)%Q.
    unfold Qle, Qmult, Qplus, inject_Z. cbn [Qnum Qden]. lia.
Qed.

(** X14. A cluster node of the output stands for one type [t]: its id is
    [cluster_t], its children are the ids of all the nodes of type [t], more
    than [clusterThreshold] of them, and its label and its drawn text both
    carry that number. Its size lies above 35 and at most at 60, reaching 60
    from fifty children on, and it is the radius of its circle at full
    detail: the fallback radius 35 is never used. *)
Theorem cluster_node_appearance {js : Builtins} :
  forall (enable : bool) (thr : Z) (nt ex : JSSet.t) (data : GraphData)
         (c : ClusterNode),
    In (Cluster c) (cnodes (clusteredData enable thr nt ex data)) ->
    exists t,
      let n := length (typeGroup t (nodes data)) in
      cid c = clusterKey t
      /\ JSSet.has nt t = true
      /\ JSSet.has ex (clusterKey t) = false
      /\ childNodes c = map id (typeGroup t (nodes data))
      /\ (thr < Z.of_nat n)%Z
      /\ clabel c = (t ++ " cluster (" ++ string_of_nat n ++ ")")%string
      /\ textOf (Cluster c) = (string_of_nat n ++ " nodes")%string
      /\ (35 < csize c)%Q /\ (csize c <= 60)%Q
      /\ (50 <= n -> (csize c == 60)%Q)
      /\ radiusOf (Cluster c) = csize c.
Proof.
  intros enable thr nt ex data c Hc.
  apply In_Cluster_output in Hc. destruct Hc as [_ [_ Hc]].
  apply In_clusterNodesOf in Hc. destruct Hc as [k [-> [Hne [Hlt Hex]]]].
  assert (Hin : In (k, groupMembers nt k (nodes data)) (groupByType nt (nodes data)))
    by now apply In_groupByType.
  destruct (group_is_type _ _ _ _ Hin) as [t [-> [Hnt [Eg _]]]].
  rewrite Eg in *. exists t. cbn zeta.
  assert (Hpos : 1 <= length (typeGroup t (nodes data))).
  { destruct (typeGroup t (nodes data)); [contradiction | simpl; lia]. }
  assert (Hfirst : firstType (typeGroup t (nodes data)) = t).
  { destruct (typeGroup t (nodes data)) as [|n0 g] eqn:E; [contradiction|].
    assert (Hn0 : In n0 (typeGroup t (nodes data))) by (rewrite E; now left).
    apply filter_In in Hn0. destruct Hn0 as [_ Hn0]. now apply String.eqb_eq. }
  destruct (csize_bounds _ Hpos) as [Hlo [Hhi Hsat]].
  cbn [cid childNodes clabel csize mkClusterNode textOf radiusOf].
  rewrite Hfirst, length_map.
  repeat split; try assumption; try reflexivity.
  destruct (Qeq_bool _ 0) eqn:Ez; [|reflexivity].
  apply Qeq_bool_iff in Ez. rewrite Ez in Hlo. discriminate.
Qed.

Lemma cluster_node_appearance_witness :
  exists t, cid (mkClusterNode "cluster_exercise" (nodes fifteenExercises))
            = clusterKey t.
Proof.
  destruct (cluster_node_appearance
              (js := asciiBuiltins) true 10 allNodeTypes [] fifteenExercises
              (mkClusterNode "cluster_exercise" (nodes fifteenExercises)))
    as [t [E _]].
  - vm_compute. auto.
  - exists t. exact E.
Defined.

(** ** The steps of the Visibility Filter *)




Lemma searchFilter_incl {js : Builtins} q ns es :
  (forall v, In v (fst (searchFilter q (ns, es))) -> In v ns)
  /\ (forall e, In e (snd (searchFilter q (ns, es))) -> In e es).
Proof.
  unfold searchFilter. destruct (truthy q); cbn [fst snd]; split; auto;
    intros x H; apply filter_In in H; tauto.
Qed.

Lemma importanceCap_incl mode max imp ns es :
  (forall v, In v (fst (importanceCap mode max imp (ns, es))) -> In v ns)
  /\ (forall e, In e (snd (importanceCap mode max imp (ns, es))) -> In e es).
Proof.
  unfold importanceCap.
  destruct (isImportant mode && (max <? Z.of_nat (length ns))%Z);
    cbn [fst snd]; split; auto; intros x H; apply filter_In in H; tauto.
Qed.

Lemma lodCull_incl z imp ns es :
  (forall v, In v (fst (lodCull z imp (ns, es))) -> In v ns)
  /\ snd (lodCull z imp (ns, es)) = es.
Proof.
  unfold lodCull. destruct (negb (Qle_bool (1 # 2) z)); cbn [fst snd];
    split; auto. intros x H; apply filter_In in H; tauto.
Qed.

Lemma visibleData_incl_active {js : Builtins} :
  forall (f : FilterState) (imp : JSMap.t nat) (c : Clustered),
    (forall v, In v (fst (visibleData f imp c)) ->
               In v (cnodes c)
               /\ (JSSet.has (nodeTypes f) (vtype v) = true
                   \/ isClusterNode v = true))
    /\ (forall e, In e (snd (visibleData f imp c)) ->
                  In e (cedges c)
                  /\ JSSet.has (edgeTypes f) (etype e) = true).
Proof.
  intros f imp c. unfold visibleData.
  destruct (searchFilter (searchQuery f) (cnodes c, cedges c)) as [ns1 es1] eqn:E1.
  assert (H1 := searchFilter_incl (searchQuery f) (cnodes c) (cedges c)).
  rewrite E1 in H1. cbn [fst snd] in H1. destruct H1 as [H1n H1e].
  unfold typeFilter.
  set (ns2 := filter _ ns1). set (es2 := filter _ es1).
  destruct (importanceCap_incl (visibilityMode f) (maxVisibleNodes f) imp ns2 es2)
    as [H3n H3e].
  destruct (importanceCap (visibilityMode f) (maxVisibleNodes f) imp (ns2, es2))
    as [ns3 es3].
  cbn [fst snd] in H3n, H3e.
  destruct (lodCull_incl (zoomLevel f) imp ns3 es3) as [H4n H4e].
  split.
  - intros v Hv. apply H4n, H3n in Hv. unfold ns2 in Hv.
    apply filter_In in Hv. destruct Hv as [Hv Ht].
    split; [now apply H1n|]. now apply orb_true_iff in Ht.
  - intros e He. rewrite H4e in He. apply H3e in He. unfold es2 in He.
    apply filter_In in He. destruct He as [He Ht]. split; [now apply H1e | assumption].
Qed.

(** X16. The Visibility Filter only selects: every node it returns is a node
    it was given, with an active type or a cluster node, and every edge it
    returns is an edge it was given, with an active edge type. *)
Theorem visible_data_only_selects {js : Builtins} :
  forall (f : FilterState) (imp : JSMap.t nat) (c : Clustered),
    (forall v, In v (fst (visibleData f imp c)) ->
               In v (cnodes c)
               /\ (JSSet.has (nodeTypes f) (vtype v) = true
                   \/ isClusterNode v = true))
    /\ (forall e, In e (snd (visibleData f imp c)) ->
                  In e (cedges c)
                  /\ JSSet.has (edgeTypes f) (etype e) = true).
Proof.
  exact visibleData_incl_active.
Qed.

Lemma visible_data_only_selects_witness :
  In (Plain (mkNode "A" "Knee pain" "condition"))
     (cnodes (clusteredData true 10 (JSSet.delete allNodeTypes "equipment") []
                            scenarioGraph)).
Proof.
  apply (proj1 (visible_data_only_selects
                  (js := asciiBuiltins) withoutEquipment (nodeImportance scenarioGraph)
                  (clusteredData true 10 (JSSet.delete allNodeTypes "equipment") []
                                 scenarioGraph))
               (Plain (mkNode "A" "Knee pain" "condition"))).
  vm_compute. auto.
Defined.

(** X17. With the empty query, every node of an active type or a cluster
    node, every edge of an active type, a zoom of at least 0.5, and either a
    mode other than 'important' or no more nodes than [maxVisibleNodes], the
    Visibility Filter returns the nodes and edges it was given, in their
    order. *)
Theorem visible_data_shows_everything {js : Builtins} :
  forall (f : FilterState) (imp : JSMap.t nat) (c : Clustered),
    truthy (searchQuery f) = false ->
    (forall v, In v (cnodes c) ->
               JSSet.has (nodeTypes f) (vtype v) = true \/ isClusterNode v = true) ->
    (forall e, In e (cedges c) -> JSSet.has (edgeTypes f) (etype e) = true) ->
    (isImportant (visibilityMode f) = false
     \/ (Z.of_nat (length (cnodes c)) <= maxVisibleNodes f)%Z) ->
    (1 # 2 <= zoomLevel f)%Q ->
    visibleData f imp c = (cnodes c, cedges c).
Proof.
  intros f imp c Hq Hn He Hcap Hz. unfold visibleData, searchFilter.
  rewrite Hq. unfold typeFilter. rewrite !filter_all.
  - unfold importanceCap.
    replace (isImportant (visibilityMode f)
             && (maxVisibleNodes f <? Z.of_nat (length (cnodes c)))%Z) with false.
    + unfold lodCull. apply Qle_bool_iff in Hz. now rewrite Hz.
    + symmetry. destruct Hcap as [Hm|Hle].
      * now rewrite Hm.
      * apply Z.ltb_ge in Hle. rewrite Hle. apply andb_false_r.
  - assumption.
  - intros v Hv. apply orb_true_iff. now apply Hn.
Qed.

Lemma visible_data_shows_everything_witness :
  visibleData (js := asciiBuiltins)
    {| searchQuery := ""; nodeTypes := allNodeTypes; edgeTypes := allEdgeTypes;
       visibilityMode := ModeAll; maxVisibleNodes := 0; zoomLevel := 1%Q |}
    (nodeImportance scenarioGraph)
    {| cnodes := map Plain (nodes scenarioGraph); cedges := edges scenarioGraph |}
  = (map Plain (nodes scenarioGraph), edges scenarioGraph).
Proof.
  apply visible_data_shows_everything.
  - reflexivity.
  - intros v [<-|[<-|[<-|[]]]]; left; reflexivity.
  - intros e [<-|[<-|[]]]; reflexivity.
  - left. reflexivity.
  - discriminate.
Defined.

Lemma fold_left_max_spec l a :
  In (fold_left Nat.max l a) (a :: l)
  /\ forall x, In x (a :: l) -> x <= fold_left Nat.max l a.
Proof.
  revert a. induction l as [|b l IH]; intros a; simpl.
  - split; [now left|]. intros x [<-|[]]. lia.
  - destruct (IH (Nat.max a b)) as [Hin Hge]. split.
    + destruct Hin as [E|Hin]; [|auto].
      rewrite <- E. destruct (Nat.max_dec a b) as [->| ->]; auto.
    + intros x [<-|[<-|Hx]].
      * specialize (Hge (Nat.max a b) (or_introl eq_refl)). lia.
      * specialize (Hge (Nat.max a b) (or_introl eq_refl)). lia.
      * apply Hge. now right.
Qed.

Lemma aboveMinImportance_spec imp k :
  aboveMinImportance imp k = true <->
  forall m, In m (JSMap.values imp) -> 3 * m <= 10 * k.
Proof.
  unfold aboveMinImportance, maxImportance.
  destruct (JSMap.values imp) as [|v vs].
  - split; [intros _ m [] | reflexivity].
  - destruct (fold_left_max_spec vs v) as [Hin Hge].
    rewrite Nat.leb_le. split.
    + intros H m Hm. specialize (Hge m Hm). lia.
    + intros H. now apply H.
Qed.

(** X18. At a zoom of at least 0.5 the level-of-detail cull changes
    nothing. Below 0.5 it keeps a node exactly when it is a cluster node or
    ten times its weight is at least three times every weight in the
    importance map; so cluster nodes and nodes of the largest weight are
    always kept. It never removes an edge, whichever nodes it drops. *)
Theorem lod_cull_keeps_heavy_nodes_and_clusters :
  forall (z : Q) (imp : JSMap.t nat) (ns : list VNode) (es : list EdgeData),
    ((1 # 2 <= z)%Q -> lodCull z imp (ns, es) = (ns, es))
    /\ ((z < 1 # 2)%Q ->
        (forall v, In v (fst (lodCull z imp (ns, es))) <->
                   In v ns
                   /\ (isClusterNode v = true
                       \/ forall m, In m (JSMap.values imp) ->
                                    3 * m <= 10 * weight imp v))
        /\ (forall v, In v ns ->
                      (forall m, In m (JSMap.values imp) -> m <= weight imp v) ->
                      In v (fst (lodCull z imp (ns, es)))))
    /\ snd (lodCull z imp (ns, es)) = es.
Proof.
  intros z imp ns es. split; [|split].
  - intros Hz. unfold lodCull. apply Qle_bool_iff in Hz. now rewrite Hz.
  - intros Hz.
    assert (Eb : Qle_bool (1 # 2) z = false).
    { destruct (Qle_bool (1 # 2) z) eqn:E; [|reflexivity].
      apply Qle_bool_iff in E. exfalso. apply (Qlt_not_le _ _ Hz E). }
    assert (Hkeep : forall v, In v (fst (lodCull z imp (ns, es))) <->
                   In v ns
                   /\ (isClusterNode v = true
                       \/ forall m, In m (JSMap.values imp) ->
                                    3 * m <= 10 * weight imp v)).
    { intros v. unfold lodCull. rewrite Eb. cbn [negb fst].
      rewrite filter_In, orb_true_iff, aboveMinImportance_spec.
      unfold weight. tauto. }
    split; [exact Hkeep|].
    intros v Hv Hmax. apply Hkeep. split; [assumption|]. right.
    intros m Hm. specialize (Hmax m Hm). lia.
  - apply lodCull_incl.
Qed.

Lemma lod_cull_keeps_heavy_nodes_and_clusters_witness :
  In (Plain (mkNode "B" "Squat" "exercise"))
     (fst (lodCull (1 # 4)%Q (nodeImportance scenarioGraph)
                   (map Plain (nodes scenarioGraph), edges scenarioGraph))).
Proof.
  apply (proj2 (proj1 (proj2 (lod_cull_keeps_heavy_nodes_and_clusters
                                (1 # 4)%Q (nodeImportance scenarioGraph)
                                (map Plain (nodes scenarioGraph))
                                (edges scenarioGraph)))
                      eq_refl)).
  - right. left. reflexivity.
  - intros m Hm.
    change (weight (nodeImportance scenarioGraph)
                   (Plain (mkNode "B" "Squat" "exercise"))) with 2.
    change (JSMap.values (nodeImportance scenarioGraph)) with [1; 2; 1] in Hm.
    destruct Hm as [<-|[<-|[<-|[]]]]; lia.
Defined.

(** ** The importance map *)

Lemma set_fresh {V : Type} (m : JSMap.t V) k v :
  ~ In k (JSMap.keys m) -> JSMap.set m k v = m ++ [(k, v)].
Proof.
  induction m as [|[k' v'] m IH]; simpl; intros H; [reflexivity|].
  destruct (String.eqb_spec k k') as [->|Hne]; [tauto|].
  f_equal. apply IH. tauto.
Qed.

Lemma fold_set_fresh {A V : Type} (key : A -> string) (val : A -> V)
      (l : list A) (m : JSMap.t V) :
  NoDup (map key l) ->
  (forall a, In a l -> ~ In (key a) (JSMap.keys m)) ->
  fold_left (fun m a => JSMap.set m (key a) (val a)) l m
  = m ++ map (fun a => (key a, val a)) l.
Proof.
  revert m. induction l as [|a l IH]; simpl; intros m Hnd Hm.
  - now rewrite app_nil_r.
  - inversion Hnd as [|? ? Hnotin Hnd']; subst.
    rewrite set_fresh by (apply Hm; now left).
    rewrite IH; [now rewrite <- app_assoc| assumption |].
    intros b Hb. unfold JSMap.keys. rewrite map_app, in_app_iff. simpl.
    intros [H|[H|[]]].
    + apply (Hm b); [now right | exact H].
    + apply Hnotin. rewrite H. now apply in_map.
Qed.

Lemma list_sum_indicator {A : Type} (p : A -> bool) (l : list A) :
  list_sum (map (fun a => if p a then 1 else 0) l) = length (filter p l).
Proof.
  induction l as [|a l IH]; simpl; [reflexivity|].
  rewrite IH. now destruct (p a).
Qed.

Lemma list_sum_map_add {A : Type} (f g : A -> nat) (l : list A) :
  list_sum (map (fun a => f a + g a) l)
  = list_sum (map f l) + list_sum (map g l).
Proof.
  induction l as [|a l IH]; simpl; [reflexivity|]. rewrite IH. lia.
Qed.

Lemma degree_sum_cons (ns : list NodeData) e es :
  list_sum (map (fun n => degree (e :: es) (id n)) ns)
  = length (filter (fun n => touches (id n) e) ns)
    + list_sum (map (fun n => degree es (id n)) ns).
Proof.
  rewrite <- list_sum_indicator, <- list_sum_map_add.
  f_equal. apply map_ext. intros n. unfold degree. simpl.
  now destruct (touches (id n) e).
Qed.

Lemma filter_or_length {A : Type} (p q : A -> bool) (l : list A) :
  length (filter (fun a => p a || q a) l)
  + length (filter (fun a => p a && q a) l)
  = length (filter p l) + length (filter q l).
Proof.
  induction l as [|a l IH]; simpl; [reflexivity|].
  destruct (p a), (q a); simpl; lia.
Qed.

Lemma count_id (ns : list NodeData) x :
  NoDup (map id ns) -> In x (map id ns) ->
  length (filter (fun n => String.eqb x (id n)) ns) = 1.
Proof.
  intros Hnd Hx. apply in_map_iff in Hx. destruct Hx as [n0 [<- Hn0]].
  rewrite (filter_ext _ (fun y => String.eqb (id y) (id n0))).
  - now rewrite (filter_unique_key id ns n0 Hnd Hn0).
  - intros a. apply String.eqb_sym.
Qed.

Lemma touching_nodes (ns : list NodeData) e :
  NoDup (map id ns) ->
  In (source e) (map id ns) -> In (target e) (map id ns) ->
  length (filter (fun n => touches (id n) e) ns)
  + (if isSelfLoop e then 1 else 0) = 2.
Proof.
  intros Hnd Hs Ht.
  assert (H := filter_or_length (fun n => String.eqb (source e) (id n))
                                (fun n => String.eqb (target e) (id n)) ns).
  rewrite (count_id ns (source e) Hnd Hs), (count_id ns (target e) Hnd Ht) in H.
  unfold touches. unfold isSelfLoop.
  destruct (String.eqb_spec (source e) (target e)) as [E|Hne].
  - rewrite (filter_ext (fun a => String.eqb (source e) (id a)
                                  && String.eqb (target e) (id a))
                        (fun a => String.eqb (source e) (id a))) in H.
    + rewrite (count_id ns (source e) Hnd Hs) in H. lia.
    + intros a. rewrite <- E. apply andb_diag.
  - rewrite (filter_none (fun a => String.eqb (source e) (id a)
                                   && String.eqb (target e) (id a))) in H.
    + simpl in H. lia.
    + intros a _. destruct (String.eqb_spec (source e) (id a)) as [Ea|];
        [|reflexivity].
      destruct (String.eqb_spec (target e) (id a)); [congruence | reflexivity].
Qed.

Lemma degree_sum (ns : list NodeData) (es : list EdgeData) :
  NoDup (map id ns) ->
  (forall e, In e es -> In (source e) (map id ns) /\ In (target e) (map id ns)) ->
  list_sum (map (fun n => degree es (id n)) ns)
  + length (filter isSelfLoop es)
  = 2 * length es.
Proof.
  intros Hnd. induction es as [|e es IH]; intros Hwf.
  - clear Hnd Hwf. simpl. induction ns as [|n ns IHn]; simpl; [reflexivity|].
    exact IHn.
  - rewrite degree_sum_cons. cbn [filter length].
    assert (Ht := touching_nodes ns e Hnd
                    (proj1 (Hwf e (or_introl eq_refl)))
                    (proj2 (Hwf e (or_introl eq_refl)))).
    assert (IH' := IH (fun e' H => Hwf e' (or_intror H))).
    destruct (isSelfLoop e); cbn [length]; lia.
Qed.

(** X19. When the node ids are pairwise distinct, the importance map lists
    the nodes in the order of the data, each with its degree; when moreover
    every edge joins two nodes of the data, the weights add up to twice the
    number of edges less the number of self-loops, a self-loop counting once
    for its node. *)
Theorem importance_weights_add_up :
  forall d : GraphData,
    NoDup (map id (nodes d)) ->
    nodeImportance d = map (fun n => (id n, degree (edges d) (id n))) (nodes d)
    /\ (wellFormed d ->
        list_sum (JSMap.values (nodeImportance d))
        + length (filter isSelfLoop (edges d))
        = 2 * length (edges d)).
Proof.
  intros d Hnd.
  assert (E : nodeImportance d
              = map (fun n => (id n, degree (edges d) (id n))) (nodes d)).
  { unfold nodeImportance.
    rewrite (fold_set_fresh id (fun n => degree (edges d) (id n)));
      [reflexivity | assumption | intros a _ []]. }
  split; [exact E|]. intros Hwf. rewrite E. unfold JSMap.values.
  rewrite map_map. cbn [snd]. now apply degree_sum.
Qed.

Lemma importance_weights_add_up_witness :
  list_sum (JSMap.values (nodeImportance scenarioGraph))
  + length (filter isSelfLoop (edges scenarioGraph))
  = 2 * length (edges scenarioGraph).
Proof.
  refine (proj2 (importance_weights_add_up scenarioGraph _) _).
  - simpl. repeat constructor; simpl; intuition discriminate.
  - exact scenarioGraph_wellFormed.
Defined.

(** X20. The node-info panel counts an edge from a node to itself twice,
    once as incoming and once as outgoing, where the importance map counts
    it once: for a node of the data the two counts add up to its weight plus
    the number of its self-loops, and the panel lists that many edges. For
    an id that no node carries nothing is shown. *)
Theorem panel_counts_self_loops_twice :
  forall (d : GraphData) (x : string),
    (In x (map id (nodes d)) ->
     exists c, connectionsOf d x = Some c
               /\ incoming c + outgoing c
                  = importanceOf (nodeImportance d) x
                    + length (filter (fun e => String.eqb (source e) x
                                               && String.eqb (target e) x)
                                     (edges d))
               /\ length (connEdges c) = incoming c + outgoing c)
    /\ (~ In x (map id (nodes d)) -> connectionsOf d x = None).
Proof.
  intros d x. split.
  - intros Hx. unfold connectionsOf.
    destruct (find (fun n => String.eqb (id n) x) (nodes d)) eqn:E.
    + eexists. split; [reflexivity|]. cbn [incoming outgoing connEdges].
      rewrite length_map, length_app. split; [|reflexivity].
      rewrite importanceOf_nodeImportance.
      apply has_In in Hx. rewrite Hx. unfold degree, touches.
      assert (H := filter_or_length (fun e => String.eqb (source e) x)
                                    (fun e => String.eqb (target e) x) (edges d)).
      lia.
    + exfalso. apply in_map_iff in Hx. destruct Hx as [n [En Hn]].
      assert (X := find_none _ _ E n Hn). simpl in X.
      rewrite En, String.eqb_refl in X. discriminate.
  - intros Hx. unfold connectionsOf.
    destruct (find (fun n => String.eqb (id n) x) (nodes d)) eqn:E; [|reflexivity].
    apply find_some in E. destruct E as [Hn E]. apply String.eqb_eq in E.
    exfalso. apply Hx. rewrite <- E. now apply in_map.
Qed.

Lemma panel_counts_self_loops_twice_witness :
  exists c, connectionsOf scenarioGraph "B" = Some c
            /\ incoming c + outgoing c = 2
            /\ length (connEdges c) = 2.
Proof.
  destruct (proj1 (panel_counts_self_loops_twice scenarioGraph "B"))
    as [c [E [Hsum Hlen]]].
  - right. left. reflexivity.
  - exists c. split; [exact E|]. rewrite Hlen, Hsum. split; reflexivity.
Defined.

(** ** Link validation in [D3ForceGraph] *)

Lemma has_of_list_eq (l : list string) x :
  JSSet.has (JSSet.of_list l) x = existsb (String.eqb x) l.
Proof.
  destruct (existsb (String.eqb x) l) eqn:E.
  - apply has_In, In_of_list. apply existsb_exists in E.
    destruct E as [y [Hy E]]. apply String.eqb_eq in E. now subst.
  - apply has_false_In. intros H. apply -> In_of_list in H.
    assert (existsb (String.eqb x) l = true); [|congruence].
    apply existsb_exists. exists x. split; [assumption | apply String.eqb_refl].
Qed.

Lemma toD3Nodes_ids d : map ForceGraph.nid (ForceGraph.toD3Nodes d) = map id (nodes d).
Proof.
  unfold ForceGraph.toD3Nodes. rewrite map_map. reflexivity.
Qed.

(** X21. [initializeGraph] turns into links exactly the edges whose source
    and target are both ids of nodes of the data, in their order; for a
    graph whose edges all join existing nodes no edge is left out. *)
Theorem valid_links_are_the_attached_edges :
  forall d : GraphData,
    let ns := ForceGraph.toD3Nodes d in
    ForceGraph.validLinks ns (edges d)
    = map ForceGraph.toD3Link
          (filter (fun e => includes (map id (nodes d)) (source e)
                            && includes (map id (nodes d)) (target e))
                  (edges d))
    /\ (forall e, In e (edges d) ->
                  In (source e) (map id (nodes d)) ->
                  In (target e) (map id (nodes d)) ->
                  In (ForceGraph.toD3Link e) (ForceGraph.validLinks ns (edges d)))
    /\ length (ForceGraph.validLinks ns (edges d)) <= length (edges d)
    /\ (wellFormed d ->
        ForceGraph.validLinks ns (edges d) = map ForceGraph.toD3Link (edges d)).
Proof.
  intros d ns. subst ns.
  assert (E : forall l, ForceGraph.validLinks (ForceGraph.toD3Nodes d) l
              = map ForceGraph.toD3Link
                    (filter (fun e => includes (map id (nodes d)) (source e)
                                      && includes (map id (nodes d)) (target e)) l)).
  { intros l. unfold ForceGraph.validLinks. rewrite toD3Nodes_ids. f_equal.
    apply filter_ext. intros e. unfold includes.
    now rewrite !has_of_list_eq. }
  split; [apply E|]. split; [|split].
  - intros e He Hs Ht. rewrite E. apply in_map. apply filter_In.
    split; [assumption|]. apply includes_In in Hs. apply includes_In in Ht.
    now rewrite Hs, Ht.
  - rewrite E, length_map. apply filter_length_le.
  - intros Hwf. rewrite E. f_equal. apply filter_all. intros e He.
    destruct (Hwf e He) as [Hs Ht].
    apply includes_In in Hs. apply includes_In in Ht. now rewrite Hs, Ht.
Qed.

Lemma valid_links_are_the_attached_edges_witness :
  ForceGraph.validLinks (ForceGraph.toD3Nodes scenarioGraph) (edges scenarioGraph)
  = map ForceGraph.toD3Link (edges scenarioGraph).
Proof.
  apply (valid_links_are_the_attached_edges scenarioGraph).
  exact scenarioGraph_wellFormed.
Defined.

(** ** Simulation set-up *)

(** X22. [initializeSimulation] steps the simulation at once only above 100
    nodes, which is also when [render] stops it after 2 instead of 5
    seconds; the number of ticks is then twice the node count, at least 202,
    and capped at 300, which it reaches from 150 nodes on. The weaker charge
    and the longer links are used only above 200 nodes, always together. *)
Theorem pre_stepping_is_bounded :
  forall n : nat,
    (n <= 100 ->
     preTicks (initializeSimulation n) = None /\ stopTime n = 5000)
    /\ (100 < n ->
        exists t, preTicks (initializeSimulation n) = Some t
                  /\ 202 <= t <= 300 /\ t <= 2 * n
                  /\ (n < 150 -> t = 2 * n) /\ (150 <= n -> t = 300)
                  /\ stopTime n = 2000)
    /\ (chargeStrength (initializeSimulation n) = (-100)%Z
        <-> linkDistance (initializeSimulation n) = 150%Z)
    /\ (chargeStrength (initializeSimulation n) = (-100)%Z <-> 200 < n)
    /\ (chargeStrength (initializeSimulation n) = (-100)%Z
        \/ chargeStrength (initializeSimulation n) = (-300)%Z).
Proof.
  intros n. unfold initializeSimulation, stopTime.
  cbn [preTicks chargeStrength linkDistance].
  destruct (Nat.ltb_spec 100 n) as [H100|H100];
    destruct (Nat.ltb_spec 200 n) as [H200|H200];
    (split; [|split; [|split; [|split]]]).
  all: try (intros H; first [lia | split; reflexivity]).
  all: try (intros H; eexists; split; [reflexivity|];
            repeat split; intros; lia).
  all: try (split; intros H; first [reflexivity | discriminate | lia]).
  all: auto.
Qed.

Lemma pre_stepping_is_bounded_witness :
  exists t, preTicks (initializeSimulation 120) = Some t /\ 202 <= t <= 300.
Proof.
  destruct (proj1 (proj2 (pre_stepping_is_bounded 120))) as [t [E [Hb _]]].
  - lia.
  - exists t. split; assumption.
Defined.

(** ** Ties in the ranking *)

Lemma insertByImportance_filter imp w x l :
  filter (fun v => weight imp v =? w) (insertByImportance imp x l)
  = filter (fun v => weight imp v =? w) (x :: l).
Proof.
  induction l as [|y l IH]; [reflexivity|].
  cbn [insertByImportance].
  destruct (Nat.leb_spec (importanceOf imp (vid y)) (importanceOf imp (vid x)))
    as [Hle|Hlt]; [reflexivity|].
  cbn [filter] in *. rewrite IH. unfold weight in *.
  destruct (Nat.eqb_spec (importanceOf imp (vid x)) w) as [Ex|Ex];
    destruct (Nat.eqb_spec (importanceOf imp (vid y)) w) as [Ey|Ey];
    try reflexivity.
  lia.
Qed.

Lemma sortByImportance_filter imp w l :
  filter (fun v => weight imp v =? w) (sortByImportance imp l)
  = filter (fun v => weight imp v =? w) l.
Proof.
  induction l as [|x l IH]; [reflexivity|].
  cbn [sortByImportance fold_right].
  change (fold_right (insertByImportance imp) [] l) with (sortByImportance imp l).
  rewrite insertByImportance_filter. cbn [filter]. now rewrite IH.
Qed.

(** X23. The ranking breaks ties by the order of the array: the nodes of any
    one weight come in the same relative order after the sort as before. So
    when all nodes weigh the same, the sort changes nothing and the cap keeps
    the nodes whose ids are those of the first [maxVisibleNodes] nodes of the
    array. *)
Theorem ranking_keeps_order_among_equals :
  forall (imp : JSMap.t nat) (l : list VNode) (w : nat),
    filter (fun v => weight imp v =? w) (sortByImportance imp l)
    = filter (fun v => weight imp v =? w) l
    /\ ((forall v, In v l -> weight imp v = w) ->
        sortByImportance imp l = l
        /\ forall max es,
            (0 <= max < Z.of_nat (length l))%Z ->
            fst (importanceCap ModeImportant max imp (l, es))
            = filter (fun node =>
                        JSSet.has (JSSet.of_list
                                     (map vid (firstn (Z.to_nat max) l)))
                                  (vid node)) l).
Proof.
  intros imp l w. split; [apply sortByImportance_filter|].
  intros Hall.
  assert (Hsort : sortByImportance imp l = l).
  { rewrite <- (filter_all (fun v => weight imp v =? w) (sortByImportance imp l)).
    - rewrite sortByImportance_filter. apply filter_all.
      intros v Hv. apply Nat.eqb_eq. now apply Hall.
    - intros v Hv. apply Nat.eqb_eq. apply Hall.
      now apply (Permutation_in _ (sortByImportance_perm imp l)). }
  split; [exact Hsort|].
  intros max es Hmax. rewrite importanceCap_above by lia. cbn [fst].
  unfold topRanked. rewrite Hsort, slice0_firstn by lia. reflexivity.
Qed.

Lemma ranking_keeps_order_among_equals_witness :
  sortByImportance [] (map Plain (nodes threeExercises))
  = map Plain (nodes threeExercises).
Proof.
  apply (proj2 (ranking_keeps_order_among_equals
                  [] (map Plain (nodes threeExercises)) 0)).
  intros v [<-|[<-|[<-|[]]]]; reflexivity.
Defined.

(** ** Type toggles and the pipeline *)

Lemma typeFilter_same_members nt nt' et vs :
  JSSet.same_members nt nt' -> typeFilter nt et vs = typeFilter nt' et vs.
Proof.
  intros H. destruct vs as [ns es]. unfold typeFilter. f_equal.
  apply filter_ext. intros v. now rewrite H.
Qed.

(** X24. Switching a node type off in the search panel removes every
    ordinary node of that type from what is simulated; switching it off and
    on again, or on and off, leaves the simulated nodes and edges as they
    were. *)
Theorem type_toggle_and_back {js : Builtins} :
  forall (p : Props) (ex : JSSet.t) (f : FilterState) (data : GraphData)
         (ty : string),
    (JSSet.has (nodeTypes f) ty = true ->
     forall n,
       In (Plain n)
          (fst (simulated p ex
                  (withNodeTypes f (handleTypeToggle ty (nodeTypes f))) data)) ->
       type n <> ty)
    /\ simulated p ex
         (withNodeTypes f (handleTypeToggle ty (handleTypeToggle ty (nodeTypes f))))
         data
       = simulated p ex f data.
Proof.
  intros p ex f data ty. split.
  - intros Hon n Hn E.
    apply visibleData_incl_active in Hn. destruct Hn as [_ [Hn|Hn]];
      [|discriminate].
    cbn [nodeTypes withNodeTypes vtype] in Hn. rewrite E in Hn.
    change (handleTypeToggle ty (nodeTypes f))
      with (handleClusterClick ty (nodeTypes f)) in Hn.
    rewrite toggle_has_self, Hon in Hn. discriminate.
  - assert (Hsame : JSSet.same_members
                      (handleTypeToggle ty (handleTypeToggle ty (nodeTypes f)))
                      (nodeTypes f)) by apply toggle_twice_same_members.
    unfold simulated, visibleData.
    cbn [nodeTypes withNodeTypes searchQuery edgeTypes visibilityMode
         maxVisibleNodes zoomLevel].
    rewrite (clusteredData_same_members _ (nodeTypes f) ex ex Hsame
               (fun _ => eq_refl)).
    now rewrite (typeFilter_same_members _ (nodeTypes f) _ _ Hsame).
Qed.

Lemma type_toggle_and_back_witness :
  JSSet.has (nodeTypes capAtOne) "equipment" = true
  /\ simulated (js := asciiBuiltins) defaultProps []
       (withNodeTypes capAtOne
          (handleTypeToggle "equipment"
             (handleTypeToggle "equipment" (nodeTypes capAtOne))))
       scenarioGraph
     = simulated (js := asciiBuiltins) defaultProps [] capAtOne scenarioGraph.
Proof.
  split.
  - reflexivity.
  - apply (proj2 (type_toggle_and_back defaultProps [] capAtOne scenarioGraph
                    "equipment")).
Defined.

Lemma reducer_accounts_for_every_node_witness :
  exists c, In (Cluster c)
               (cnodes (clusteredData true 2 ["exercise"] [] threeExercises))
            /\ In "e2" (childNodes c).
Proof.
  destruct (proj1 (reducer_accounts_for_every_node
                     true 2 ["exercise"] [] threeExercises)
                  (mkNode "e2" "Lunge" "exercise")) as [H|[c [Hc [_ Hx]]]].
  - simpl. auto.
  - exfalso. vm_compute in H. destruct H as [H|[]]. discriminate.
  - exists c. split; assumption.
Defined.

(** X25. A click on a search result leaves selected exactly the nodes that
    carry the clicked id and no edge, whatever was selected before; the
    [clearSelection] in front of the single select changes nothing. *)
Theorem search_result_click_selects_one :
  forall (x : string) (s : GraphStore.State),
    let s' := handleSearchResultClick x s in
    GraphStore.getSelectedNodes s'
    = filter (fun n => String.eqb (id n) x) (nodes (GraphStore.data s))
    /\ GraphStore.getSelectedEdges s' = []
    /\ (forall y, GraphStore.isNodeSelected y s' = String.eqb y x)
    /\ s' = GraphStore.selectNode x false s.
Proof.
  intros x s s'. subst s'. split; [|split; [|split]].
  - unfold GraphStore.getSelectedNodes. apply filter_ext. intros n.
    cbn. apply orb_false_r.
  - apply filter_none. reflexivity.
  - intros y. unfold GraphStore.isNodeSelected. cbn. apply orb_false_r.
  - reflexivity.
Qed.
